(** * Bank Management System: a shallow embedding of [bank.c]

    The program keeps two singly linked lists (the live accounts and the
    account numbers freed by deletion) and one global counter.  A linked
    list is embedded as a Rocq [list] whose order is the order of the
    [next] pointers; a pointer to a node is the suffix that starts at that
    node, or its position in that suffix.  [int] values are [Z]; the only
    [int] arithmetic of the program is the post-increment of the global
    counter, whose signed overflow is undefined behaviour and is embedded
    as the absence of a result.  [float] values are IEEE 754 binary32
    numbers, embedded with the executable operations of [SpecFloat];
    expressions of type [float] are evaluated in binary32, rounding to
    nearest even.  Whether a [malloc] or [strdup] succeeds is decided by
    the environment and is an input of each command.  The commands and
    their arguments are taken as [scanf] delivers them. *)

From Stdlib Require Import ZArith String Ascii Lia.
From Stdlib Require Import Floats.SpecFloat.
From stdpp Require Import base list sorting.

Local Open Scope Z_scope.

(** ** Scalar types of the C program *)

Definition INT_MAX : Z := 2147483647.

(** [float]: binary32 has a 24 bit mantissa and [emax = 128]. *)
Definition float : Type := spec_float.

Definition f32_add : float -> float -> float := SFadd 24 128.
Definition f32_sub : float -> float -> float := SFsub 24 128.
Definition f32_lt : float -> float -> bool := SFltb.

(** Conversion of an [int] constant, as in [x < 100]. *)
Definition f32_of_int (z : Z) : float := binary_normalize 24 128 z 0 false.

(** Decimal input such as [99.99], read by [scanf("%f")]: the binary32
    number nearest to [n / d]. *)
Definition f32_of_ratio (n d : Z) : float :=
  SFdiv 24 128 (f32_of_int n) (f32_of_int d).

(** [strcmp]: the sign of the first difference, bytes compared as
    [unsigned char].  A [string] is the content of a C string, that is
    the bytes before the terminating NUL. *)
Fixpoint strcmp (s1 s2 : string) : Z :=
  match s1, s2 with
  | EmptyString, EmptyString => 0
  | EmptyString, String _ _ => -1
  | String _ _, EmptyString => 1
  | String c1 r1, String c2 r2 =>
      if (N_of_ascii c1 =? N_of_ascii c2)%N then strcmp r1 r2
      else if (N_of_ascii c1 <? N_of_ascii c2)%N then -1 else 1
  end.

(** ** Data model *)

Inductive AccountType : Type := SAVINGS | CURRENT.

Definition AccountType_eqb (a b : AccountType) : bool :=
  match a, b with
  | SAVINGS, SAVINGS | CURRENT, CURRENT => true
  | _, _ => false
  end.

Record AccountNode : Type := mkAccount {
  AccountNumber : Z;
  Name : string;
  accountType : AccountType;
  Amount : float
}.

(** Assignments to one field of a node. *)
Definition set_AccountNumber (v : Z) (a : AccountNode) : AccountNode :=
  mkAccount v (Name a) (accountType a) (Amount a).
Definition set_Name (v : string) (a : AccountNode) : AccountNode :=
  mkAccount (AccountNumber a) v (accountType a) (Amount a).
Definition set_accountType (v : AccountType) (a : AccountNode) : AccountNode :=
  mkAccount (AccountNumber a) (Name a) v (Amount a).
Definition set_Amount (v : float) (a : AccountNode) : AccountNode :=
  mkAccount (AccountNumber a) (Name a) (accountType a) v.

(** The two list typedefs: the head pointer stands for the whole list. *)
Abbreviation AccountList := (list AccountNode).
Abbreviation DeletedAccountNumList := (list Z).

(** The three pieces of mutable state of [main]. *)
Record State : Type := mkState {
  accountsHead : AccountList;
  deletedAccountNumbersHead : DeletedAccountNumList;
  globalNextAccountNumber : Z
}.

Definition initial_state : State := mkState [] [] 100.

(** Outcome of the allocations of one command: [malloc] of a node and
    [strdup] of the holder name. *)
Record Alloc : Type := mkAlloc { malloc_ok : bool; strdup_ok : bool }.

Definition alloc_ok : Alloc := mkAlloc true true.

(** ** Console output

    One constructor per message of the program; tables carry their rows. *)

Definition DisplayRow : Type := (Z * AccountType * string * float)%type.
Definition LowBalanceRow : Type := (Z * string * float)%type.

Inductive Output : Type :=
| MsgAllocationFailed
| MsgAccountCreated (number : Z) (holder : string) (ty : AccountType) (balance : float)
| MsgInvalidAccountType (given : string)
| MsgDuplicateAccount (holder given : string)
| MsgNoAccountsToDelete
| MsgAccountDeleted (number : Z)
| MsgDeleteNotFound (holder : string) (ty : AccountType)
| MsgNoAccountsToDisplay
| MsgAccountTable (rows : list DisplayRow)
| MsgLowBalanceTable (rows : list LowBalanceRow)
| MsgNoAccountsForTransactions
| MsgDepositSuccessful (number : Z) (balance : float)
| MsgWithdrawalSuccessful (number : Z) (balance : float)
| MsgInsufficientSavings
| MsgInsufficientCurrent
| MsgInvalidTransactionCode
| MsgTransactionNotFound (number : Z)
| MsgInvalidCommand (verb : string)
| MsgGoodbye.

(** ** [display] *)

Fixpoint display_rows (l : AccountList) : list DisplayRow :=
  match l with
  | [] => []
  | a :: l' =>
      (AccountNumber a, accountType a, Name a, Amount a) :: display_rows l'
  end.

Definition display (l : AccountList) : Output :=
  match l with
  | [] => MsgNoAccountsToDisplay
  | _ => MsgAccountTable (display_rows l)
  end.

(** ** [addDeletedAccountNum] *)

Definition addDeletedAccountNum (mem : Alloc) (lst : DeletedAccountNumList)
    (accountNumToAdd : Z) : DeletedAccountNumList * list Output :=
  if negb (malloc_ok mem) then (lst, [MsgAllocationFailed])
  else match lst with
       | [] => ([accountNumToAdd], [])
       | _ => (lst ++ [accountNumToAdd], [])
       end.

(** ** [sortDeletedAccountNumList]

    [deleted_min_scan] is the inner loop: [runner] is the rest of the list
    from the runner on, [pos] its position counted from [current] (which
    is position 0), and [minPos], [minNum] are the position and the number
    of [minNode]. *)

Fixpoint deleted_min_scan (runner : DeletedAccountNumList) (pos minPos : nat)
    (minNum : Z) : nat * Z :=
  match runner with
  | [] => (minPos, minNum)
  | r :: runner' =>
      if r <? minNum then deleted_min_scan runner' (S pos) pos r
      else deleted_min_scan runner' (S pos) minPos minNum
  end.

(** The outer loop visits every node once: [n] is the number of nodes from
    [current] on. *)
Fixpoint deleted_sort_loop (n : nat) (current : DeletedAccountNumList)
    : DeletedAccountNumList :=
  match n, current with
  | S n', cur :: rest =>
      match deleted_min_scan rest 1 0 cur with
      | (O, _) => cur :: deleted_sort_loop n' rest
      | (S k, minNum) =>
          let temp := cur in
          minNum :: deleted_sort_loop n' (<[k := temp]> rest)
      end
  | _, _ => current
  end.

Definition sortDeletedAccountNumList (lst : DeletedAccountNumList)
    : DeletedAccountNumList :=
  match lst with
  | [] | [_] => lst
  | _ => deleted_sort_loop (length lst) lst
  end.

(** ** [createAccount]

    The result is [None] when [globalNextAccountNumber++] overflows. *)

Definition createAccount (mem : Alloc) (deleted : DeletedAccountNumList)
    (next : Z) (lst : AccountList) (ty : AccountType) (name : string)
    (amount : float)
    : option (DeletedAccountNumList * Z * AccountList * list Output) :=
  if negb (malloc_ok mem) then Some (deleted, next, lst, [MsgAllocationFailed])
  else if negb (strdup_ok mem) then Some (deleted, next, lst, [MsgAllocationFailed])
  else
    let minted :=
      match deleted with
      | num :: deleted' => Some (num, deleted', next)
      | [] => if next <? INT_MAX then Some (next, [], next + 1) else None
      end in
    match minted with
    | None => None
    | Some (number, deleted', next') =>
        let new_node := mkAccount number name ty amount in
        let out := [MsgAccountCreated number name ty amount] in
        match lst with
        | [] => Some (deleted', next', [new_node], out)
        | _ => Some (deleted', next', lst ++ [new_node], out)
        end
    end.

(** ** [deleteAccount] *)

Fixpoint delete_loop (current : AccountList) (ty : AccountType) (name : string)
    : option (AccountList * Z) :=
  match current with
  | [] => None
  | cur :: rest =>
      if (strcmp (Name cur) name =? 0) && AccountType_eqb (accountType cur) ty
      then Some (rest, AccountNumber cur)
      else match delete_loop rest ty name with
           | Some (rest', number) => Some (cur :: rest', number)
           | None => None
           end
  end.

(** Returns the list, the value left in [*deletedAccountNumber] and the
    message. *)
Definition deleteAccount (lst : AccountList) (ty : AccountType) (name : string)
    : AccountList * Z * Output :=
  match lst with
  | [] => ([], -1, MsgNoAccountsToDelete)
  | _ =>
      match delete_loop lst ty name with
      | Some (lst', number) => (lst', number, MsgAccountDeleted number)
      | None => (lst, -1, MsgDeleteNotFound name ty)
      end
  end.

(** ** [lowBalanceAccounts] *)

Fixpoint low_balance_rows (l : AccountList) : list LowBalanceRow :=
  match l with
  | [] => []
  | a :: l' =>
      if f32_lt (Amount a) (f32_of_int 100)
      then (AccountNumber a, Name a, Amount a) :: low_balance_rows l'
      else low_balance_rows l'
  end.

Definition lowBalanceAccounts (l : AccountList) : Output :=
  match l with
  | [] => MsgNoAccountsToDisplay
  | _ => MsgLowBalanceTable (low_balance_rows l)
  end.

(** ** [transaction] *)

Fixpoint transaction_loop (current : AccountList) (number : Z) (amount : float)
    (code : Z) : AccountList * Output :=
  match current with
  | [] => ([], MsgTransactionNotFound number)
  | cur :: rest =>
      if AccountNumber cur =? number then
        if code =? 1 then
          let bal := f32_add (Amount cur) amount in
          (set_Amount bal cur :: rest, MsgDepositSuccessful number bal)
        else if code =? 0 then
          if AccountType_eqb (accountType cur) SAVINGS
             && f32_lt (f32_sub (Amount cur) amount) (f32_of_int 100)
          then (cur :: rest, MsgInsufficientSavings)
          else if AccountType_eqb (accountType cur) CURRENT
                  && f32_lt (f32_sub (Amount cur) amount) (f32_of_int 0)
          then (cur :: rest, MsgInsufficientCurrent)
          else
            let bal := f32_sub (Amount cur) amount in
            (set_Amount bal cur :: rest, MsgWithdrawalSuccessful number bal)
        else (cur :: rest, MsgInvalidTransactionCode)
      else
        let '(rest', out) := transaction_loop rest number amount code in
        (cur :: rest', out)
  end.

Definition transaction (lst : AccountList) (number : Z) (amount : float)
    (code : Z) : AccountList * Output :=
  match lst with
  | [] => ([], MsgNoAccountsForTransactions)
  | _ => transaction_loop lst number amount code
  end.

(** ** [sortAccountListByNumber] *)

Fixpoint account_min_scan (runner : AccountList) (pos minPos : nat)
    (minNode : AccountNode) : nat * AccountNode :=
  match runner with
  | [] => (minPos, minNode)
  | r :: runner' =>
      if AccountNumber r <? AccountNumber minNode
      then account_min_scan runner' (S pos) pos r
      else account_min_scan runner' (S pos) minPos minNode
  end.

(** The twelve assignments that exchange the fields of [current] and
    [minNode], two distinct nodes. *)
Definition swap_account_fields (current minNode : AccountNode)
    : AccountNode * AccountNode :=
  let tempAccountNumber := AccountNumber current in
  let current := set_AccountNumber (AccountNumber minNode) current in
  let minNode := set_AccountNumber tempAccountNumber minNode in
  let tempName := Name current in
  let current := set_Name (Name minNode) current in
  let minNode := set_Name tempName minNode in
  let tempAccountType := accountType current in
  let current := set_accountType (accountType minNode) current in
  let minNode := set_accountType tempAccountType minNode in
  let tempAmount := Amount current in
  let current := set_Amount (Amount minNode) current in
  let minNode := set_Amount tempAmount minNode in
  (current, minNode).

Fixpoint account_sort_loop (n : nat) (current : AccountList) : AccountList :=
  match n, current with
  | S n', cur :: rest =>
      match account_min_scan rest 1 0 cur with
      | (O, _) => cur :: account_sort_loop n' rest
      | (S k, minNode) =>
          let '(cur', minNode') := swap_account_fields cur minNode in
          cur' :: account_sort_loop n' (<[k := minNode']> rest)
      end
  | _, _ => current
  end.

Definition sortAccountListByNumber (lst : AccountList) : AccountList :=
  match lst with
  | [] | [_] => lst
  | _ => account_sort_loop (length lst) lst
  end.

(** ** [checkDuplicateAccount] *)

Fixpoint checkDuplicateAccount (lst : AccountList) (name : string)
    (ty : AccountType) : Z :=
  match lst with
  | [] => 0
  | cur :: rest =>
      if (strcmp (Name cur) name =? 0) && AccountType_eqb (accountType cur) ty
      then 1
      else checkDuplicateAccount rest name ty
  end.

(** ** The command loop of [main] *)

Inductive Command : Type :=
| CREATE (accountTypeInputStr nameInput : string) (amountInput : float)
| DELETE (accountTypeInputStr nameInput : string)
| DISPLAY
| LOWBALANCE
| TRANSACTION (targetAccountNumberInput : Z) (amountInput : float)
    (transactionCodeInput : Z)
| EXIT
| UNKNOWN (commandInput : string).

(** Conversion of the account type string to the enum. *)
Definition parseAccountType (accountTypeInputStr : string) : option AccountType :=
  if strcmp accountTypeInputStr "savings" =? 0 then Some SAVINGS
  else if strcmp accountTypeInputStr "current" =? 0 then Some CURRENT
  else None.

(** One iteration of the loop for a command other than [EXIT]; [None] is
    undefined behaviour. *)
Definition execute (mem : Alloc) (c : Command) (s : State)
    : option (State * list Output) :=
  match c with
  | CREATE accountTypeInputStr nameInput amountInput =>
      match parseAccountType accountTypeInputStr with
      | None => Some (s, [MsgInvalidAccountType accountTypeInputStr])
      | Some accType =>
          if negb (checkDuplicateAccount (accountsHead s) nameInput accType =? 0)
          then Some (s, [MsgDuplicateAccount nameInput accountTypeInputStr])
          else
            let deleted := sortDeletedAccountNumList (deletedAccountNumbersHead s) in
            match createAccount mem deleted (globalNextAccountNumber s)
                    (accountsHead s) accType nameInput amountInput with
            | None => None
            | Some (deleted', next', accounts', out) =>
                Some (mkState accounts' deleted' next', out)
            end
      end
  | DELETE accountTypeInputStr nameInput =>
      match parseAccountType accountTypeInputStr with
      | None => Some (s, [MsgInvalidAccountType accountTypeInputStr])
      | Some accType =>
          let '(accounts', deletedNum, msg) :=
            deleteAccount (accountsHead s) accType nameInput in
          if negb (deletedNum =? -1) then
            let '(deleted', out) :=
              addDeletedAccountNum mem (deletedAccountNumbersHead s) deletedNum in
            Some (mkState accounts' deleted' (globalNextAccountNumber s), msg :: out)
          else
            Some (mkState accounts' (deletedAccountNumbersHead s)
                    (globalNextAccountNumber s), [msg])
      end
  | DISPLAY =>
      let accounts' := sortAccountListByNumber (accountsHead s) in
      Some (mkState accounts' (deletedAccountNumbersHead s)
              (globalNextAccountNumber s), [display accounts'])
  | LOWBALANCE =>
      let accounts' := sortAccountListByNumber (accountsHead s) in
      Some (mkState accounts' (deletedAccountNumbersHead s)
              (globalNextAccountNumber s), [lowBalanceAccounts accounts'])
  | TRANSACTION targetAccountNumberInput amountInput transactionCodeInput =>
      let '(accounts', msg) :=
        transaction (accountsHead s) targetAccountNumberInput amountInput
          transactionCodeInput in
      Some (mkState accounts' (deletedAccountNumbersHead s)
              (globalNextAccountNumber s), [msg])
  | EXIT => Some (s, [MsgGoodbye])
  | UNKNOWN commandInput => Some (s, [MsgInvalidCommand commandInput])
  end.

(** The loop over the commands read so far; it ends at [EXIT].  The state
    returned is the one the loop is left with. *)
Fixpoint main_loop (input : list (Alloc * Command)) (s : State)
    : option (State * list Output) :=
  match input with
  | [] => Some (s, [])
  | (_, EXIT) :: _ => Some (s, [MsgGoodbye])
  | (mem, c) :: input' =>
      match execute mem c s with
      | None => None
      | Some (s', out) =>
          match main_loop input' s' with
          | None => None
          | Some (s'', outs) => Some (s'', out ++ outs)
          end
      end
  end.

Definition main (input : list (Alloc * Command)) : option (State * list Output) :=
  main_loop input initial_state.

(** ** Definitions used by the statements

    The two sorting functions run the same selection loop; [min_scan] and
    [selection_loop] are that loop over any node type with an integer
    key, exchanging whole nodes. *)

Fixpoint min_scan {A : Type} (key : A -> Z) (runner : list A) (pos minPos : nat)
    (minNode : A) : nat * A :=
  match runner with
  | [] => (minPos, minNode)
  | r :: runner' =>
      if key r <? key minNode then min_scan key runner' (S pos) pos r
      else min_scan key runner' (S pos) minPos minNode
  end.

Fixpoint selection_loop {A : Type} (key : A -> Z) (n : nat) (current : list A)
    : list A :=
  match n, current with
  | S n', cur :: rest =>
      match min_scan key rest 1 0 cur with
      | (O, _) => cur :: selection_loop key n' rest
      | (S k, minNode) => minNode :: selection_loop key n' (<[k := cur]> rest)
      end
  | _, _ => current
  end.

(** Ascending order of keys, and of account numbers. *)
Definition key_le {A : Type} (key : A -> Z) (a b : A) : Prop := key a <= key b.

Definition by_number (a b : AccountNode) : Prop :=
  AccountNumber a <= AccountNumber b.

(** The error classes of the specification, and the class of each
    message of the program. *)
Inductive Error : Type :=
| DuplicateAccount
| AccountNotFound
| InsufficientBalance
| InvalidAccountType
| InvalidTransactionCode.

Definition error_of (o : Output) : option Error :=
  match o with
  | MsgDuplicateAccount _ _ => Some DuplicateAccount
  | MsgNoAccountsToDelete | MsgDeleteNotFound _ _
  | MsgNoAccountsForTransactions | MsgTransactionNotFound _ => Some AccountNotFound
  | MsgInsufficientSavings | MsgInsufficientCurrent => Some InsufficientBalance
  | MsgInvalidAccountType _ => Some InvalidAccountType
  | MsgInvalidTransactionCode => Some InvalidTransactionCode
  | _ => None
  end.

(** The rows printed for a node by [display] and [lowBalanceAccounts]. *)
Definition display_row (a : AccountNode) : DisplayRow :=
  (AccountNumber a, accountType a, Name a, Amount a).

Definition low_balance_row (a : AccountNode) : LowBalanceRow :=
  (AccountNumber a, Name a, Amount a).

(** The balance test of [lowBalanceAccounts]. *)
Definition is_low (a : AccountNode) : Prop :=
  f32_lt (Amount a) (f32_of_int 100) = true.

#[local] Instance is_low_dec (a : AccountNode) : Decision (is_low a).
Proof. unfold is_low. apply _. Defined.

(** The account numbers listed by a table, top to bottom, and the rows of
    a low balance table. *)
Definition listed_numbers (o : Output) : list Z :=
  match o with
  | MsgAccountTable rows => (fun r : DisplayRow => r.1.1.1) <$> rows
  | MsgLowBalanceTable rows => (fun r : LowBalanceRow => r.1.1) <$> rows
  | _ => []
  end.

Definition low_balance_listing (o : Output) : list LowBalanceRow :=
  match o with
  | MsgLowBalanceTable rows => rows
  | _ => []
  end.

(** A live account with the given holder and type. *)
Definition has_account (l : AccountList) (name : string) (ty : AccountType) : Prop :=
  exists a, a ∈ l /\ Name a = name /\ accountType a = ty.

(** Numbers held by live accounts, and numbers issued and not lost: live
    or waiting in the pool. *)
Definition live_numbers (s : State) : list Z := AccountNumber <$> accountsHead s.

Definition issued_numbers (s : State) : list Z :=
  live_numbers s ++ deletedAccountNumbersHead s.

(** Account numbers reported by the creation messages of an output. *)
Fixpoint created_numbers (outs : list Output) : list Z :=
  match outs with
  | [] => []
  | MsgAccountCreated n _ _ _ :: outs' => n :: created_numbers outs'
  | _ :: outs' => created_numbers outs'
  end.

(** The command mints a brand-new number: it is a [CREATE] with a valid
    type, no duplicate, successful allocations and an empty pool. *)
Definition mints_fresh (mem : Alloc) (c : Command) (s : State) : bool :=
  match c with
  | CREATE accountTypeInputStr nameInput _ =>
      match parseAccountType accountTypeInputStr with
      | Some accType =>
          (checkDuplicateAccount (accountsHead s) nameInput accType =? 0)
          && malloc_ok mem && strdup_ok mem
          && bool_decide (deletedAccountNumbersHead s = [])
      | None => false
      end
  | _ => false
  end.

(** The invariant of the command loop. *)
Record state_ok (s : State) : Prop := mkStateOk {
  ok_nodup : NoDup (issued_numbers s);
  ok_range : Forall (fun n => 100 <= n < globalNextAccountNumber s) (issued_numbers s);
  ok_counter : 100 <= globalNextAccountNumber s <= INT_MAX
}.

(** ** Definitions used by the further properties *)

(** The name of an account type, as [display] and the messages print it. *)
Definition accountTypeStr (ty : AccountType) : string :=
  match ty with
  | SAVINGS => "savings"
  | CURRENT => "current"
  end.


(** Holder and type of a node: what [checkDuplicateAccount] and
    [deleteAccount] compare.  With the number: what no transaction
    changes. *)
Definition holder_key (a : AccountNode) : string * AccountType :=
  (Name a, accountType a).

Definition identity_of (a : AccountNode) : Z * string * AccountType :=
  (AccountNumber a, Name a, accountType a).

(** What a transaction on [number] may do to a node: its number, holder
    and type stay, and a node with another number stays as a whole. *)
Definition transaction_touches (number : Z) (a a' : AccountNode) : Prop :=
  identity_of a' = identity_of a /\ (AccountNumber a <> number -> a' = a).

Definition is_exit (c : Command) : bool :=
  match c with
  | EXIT => true
  | _ => false
  end.

(** The allocation of [addDeletedAccountNum] succeeds, for a [DELETE]. *)
Definition pooling_succeeds (p : Alloc * Command) : Prop :=
  match p.2 with
  | DELETE _ _ => malloc_ok p.1 = true
  | _ => True
  end.

(** * Properties *)

(** ** Strings and account types *)

Lemma strcmp_refl (s : string) : strcmp s s = 0.
Proof.
  induction s as [|c s IH]; simpl; [reflexivity|].
  rewrite N.eqb_refl. exact IH.
Qed.

Lemma strcmp_zero (s1 s2 : string) : strcmp s1 s2 = 0 <-> s1 = s2.
Proof.
  split; [|intros ->; apply strcmp_refl].
  revert s2. induction s1 as [|c1 r1 IH]; intros [|c2 r2]; simpl; try done.
  destruct (N.eqb_spec (N_of_ascii c1) (N_of_ascii c2)) as [Hc|Hc].
  - intros H. apply IH in H. subst r2.
    apply (f_equal ascii_of_N) in Hc. rewrite !ascii_N_embedding in Hc.
    by subst c2.
  - by destruct (N_of_ascii c1 <? N_of_ascii c2)%N.
Qed.

Lemma AccountType_eqb_eq (a b : AccountType) : AccountType_eqb a b = true <-> a = b.
Proof. destruct a, b; simpl; split; done. Qed.

Lemma same_holder_spec (cur : AccountNode) (name : string) (ty : AccountType) :
  (strcmp (Name cur) name =? 0) && AccountType_eqb (accountType cur) ty = true
  <-> Name cur = name /\ accountType cur = ty.
Proof.
  rewrite andb_true_iff, Z.eqb_eq, strcmp_zero, AccountType_eqb_eq. tauto.
Qed.

Lemma parseAccountType_savings : parseAccountType "savings" = Some SAVINGS.
Proof. reflexivity. Qed.

Lemma parseAccountType_current : parseAccountType "current" = Some CURRENT.
Proof. reflexivity. Qed.

(** ** [checkDuplicateAccount] *)

Lemma checkDuplicateAccount_bool (l : AccountList) name ty :
  checkDuplicateAccount l name ty = 0 \/ checkDuplicateAccount l name ty = 1.
Proof.
  induction l as [|cur rest IH]; simpl; [by left|].
  destruct (_ && _); [by right|exact IH].
Qed.

Lemma checkDuplicateAccount_found (l : AccountList) name ty :
  checkDuplicateAccount l name ty = 1 <-> has_account l name ty.
Proof.
  unfold has_account. induction l as [|cur rest IH]; simpl.
  - split; [done|]. intros (a & Ha & _). by apply elem_of_nil in Ha.
  - destruct ((strcmp (Name cur) name =? 0) && AccountType_eqb (accountType cur) ty)
      eqn:E.
    + apply same_holder_spec in E. split; [|done].
      intros _. exists cur. split; [left|done].
    + rewrite IH. split.
      * intros (a & Ha & Hn). exists a. split; [by right|done].
      * intros (a & Ha & Hn). apply elem_of_cons in Ha as [->|Ha].
        -- apply same_holder_spec in Hn. congruence.
        -- by exists a.
Qed.

Lemma checkDuplicateAccount_none (l : AccountList) name ty :
  checkDuplicateAccount l name ty = 0 <-> ~ has_account l name ty.
Proof.
  rewrite <- checkDuplicateAccount_found.
  destruct (checkDuplicateAccount_bool l name ty) as [H|H]; rewrite H; split; done.
Qed.

(** ** The selection loop *)

Section SelectionFacts.
Context {A : Type} (key : A -> Z).

(** The scan returns a node that is minimal among [minNode] and the
    nodes visited, together with its position. *)
Lemma min_scan_spec (runner : list A) (pos minPos : nat) (minNode : A) m x :
  min_scan key runner pos minPos minNode = (m, x) ->
  key x <= key minNode /\ Forall (key_le key x) runner /\
  ((m = minPos /\ x = minNode) \/
   exists j, m = (pos + j)%nat /\ runner !! j = Some x).
Proof.
  revert pos minPos minNode.
  induction runner as [|r runner IH]; intros pos minPos minNode; simpl.
  - intros [= <- <-]. split; [lia|]. split; [constructor|by left].
  - destruct (Z.ltb_spec (key r) (key minNode)) as [Hlt|Hge]; intros Hscan;
      apply IH in Hscan as (Hle & Hall & Hpos).
    + split; [lia|]. split; [constructor; [exact Hle|exact Hall]|].
      right. destruct Hpos as [[-> ->]|(j & -> & Hj)].
      * exists O. split; [lia|done].
      * exists (S j). split; [lia|done].
    + split; [exact Hle|]. split; [constructor; [unfold key_le; lia|exact Hall]|].
      destruct Hpos as [[-> ->]|(j & -> & Hj)]; [by left|].
      right. exists (S j). split; [lia|done].
Qed.

(** Exchanging the head with the node at position [k] of the tail. *)
Lemma exchange_Permutation (cur x : A) (rest : list A) (k : nat) :
  rest !! k = Some x -> x :: <[k := cur]> rest ≡ₚ cur :: rest.
Proof.
  revert k. induction rest as [|y rest IH]; intros [|k]; simpl; try done.
  - intros [= ->]. apply perm_swap.
  - intros Hk. rewrite (perm_swap y x), (IH k Hk). apply perm_swap.
Qed.

Lemma selection_loop_Permutation (n : nat) (l : list A) :
  selection_loop key n l ≡ₚ l.
Proof.
  revert l. induction n as [|n IH]; intros [|cur rest]; simpl; try done.
  destruct (min_scan key rest 1 0 cur) as [[|k] x] eqn:Hscan.
  - by rewrite IH.
  - apply min_scan_spec in Hscan as (_ & _ & [[? _]|(j & Hj & Hx)]); [done|].
    rewrite IH. apply exchange_Permutation.
    by replace k with j by lia.
Qed.

Lemma selection_loop_sorted (n : nat) (l : list A) :
  (length l <= n)%nat -> StronglySorted (key_le key) (selection_loop key n l).
Proof.
  revert l. induction n as [|n IH]; intros [|cur rest]; simpl; intros Hlen;
    [constructor|lia|constructor|].
  destruct (min_scan key rest 1 0 cur) as [[|k] x] eqn:Hscan;
    apply min_scan_spec in Hscan as (Hle & Hall & Hpos).
  - destruct Hpos as [[_ ->]|(j & ? & _)]; [|lia].
    constructor; [apply IH; lia|].
    by rewrite selection_loop_Permutation.
  - constructor.
    + apply IH. rewrite length_insert. lia.
    + rewrite selection_loop_Permutation. by apply Forall_insert.
Qed.
End SelectionFacts.

(** ** The two sorting functions run the selection loop *)

Lemma swap_account_fields_exchange (current minNode : AccountNode) :
  swap_account_fields current minNode = (minNode, current).
Proof. by destruct current, minNode. Qed.

Lemma account_min_scan_generic (runner : AccountList) pos minPos minNode :
  account_min_scan runner pos minPos minNode
  = min_scan AccountNumber runner pos minPos minNode.
Proof.
  revert pos minPos minNode.
  induction runner as [|r runner IH]; intros; simpl; [done|].
  by rewrite !IH.
Qed.

Lemma account_sort_loop_generic (n : nat) (l : AccountList) :
  account_sort_loop n l = selection_loop AccountNumber n l.
Proof.
  revert l. induction n as [|n IH]; intros [|cur rest];
    cbn [account_sort_loop selection_loop]; try done.
  rewrite account_min_scan_generic.
  destruct (min_scan AccountNumber rest 1 0 cur) as [[|k] x].
  - by rewrite IH.
  - rewrite swap_account_fields_exchange. by rewrite IH.
Qed.

Lemma deleted_min_scan_generic (runner : DeletedAccountNumList) pos minPos minNum :
  deleted_min_scan runner pos minPos minNum = min_scan id runner pos minPos minNum.
Proof.
  revert pos minPos minNum.
  induction runner as [|r runner IH]; intros; simpl; [done|].
  by rewrite !IH.
Qed.

Lemma deleted_sort_loop_generic (n : nat) (l : DeletedAccountNumList) :
  deleted_sort_loop n l = selection_loop id n l.
Proof.
  revert l. induction n as [|n IH]; intros [|cur rest]; simpl; try done.
  rewrite deleted_min_scan_generic.
  destruct (min_scan id rest 1 0 cur) as [[|k] x]; by rewrite IH.
Qed.

Lemma sortAccountListByNumber_Permutation (l : AccountList) :
  sortAccountListByNumber l ≡ₚ l.
Proof.
  destruct l as [|a [|b l]]; try done.
  unfold sortAccountListByNumber.
  rewrite account_sort_loop_generic. apply selection_loop_Permutation.
Qed.

Lemma sortAccountListByNumber_sorted (l : AccountList) :
  StronglySorted by_number (sortAccountListByNumber l).
Proof.
  destruct l as [|a [|b l]]; [constructor|repeat constructor|].
  unfold sortAccountListByNumber.
  rewrite account_sort_loop_generic.
  by apply (selection_loop_sorted AccountNumber).
Qed.

Lemma sortDeletedAccountNumList_Permutation (l : DeletedAccountNumList) :
  sortDeletedAccountNumList l ≡ₚ l.
Proof.
  destruct l as [|a [|b l]]; try done.
  unfold sortDeletedAccountNumList.
  rewrite deleted_sort_loop_generic. apply selection_loop_Permutation.
Qed.

Lemma sortDeletedAccountNumList_sorted (l : DeletedAccountNumList) :
  StronglySorted Z.le (sortDeletedAccountNumList l).
Proof.
  destruct l as [|a [|b l]]; [constructor|repeat constructor|].
  unfold sortDeletedAccountNumList.
  rewrite deleted_sort_loop_generic.
  by apply (selection_loop_sorted id).
Qed.

(** The head of the sorted pool is its smallest number. *)
Lemma sortDeletedAccountNumList_head (l : DeletedAccountNumList) x rest :
  sortDeletedAccountNumList l = x :: rest ->
  l ≡ₚ x :: rest /\ Forall (Z.le x) l.
Proof.
  intros Hs.
  pose proof (sortDeletedAccountNumList_Permutation l) as Hp.
  pose proof (sortDeletedAccountNumList_sorted l) as Hsorted.
  rewrite Hs in Hp, Hsorted. split; [done|].
  rewrite <- Hp. apply StronglySorted_inv in Hsorted as [_ Hall].
  constructor; [lia|done].
Qed.

Lemma sortDeletedAccountNumList_nil (l : DeletedAccountNumList) :
  sortDeletedAccountNumList l = [] <-> l = [].
Proof.
  split; [|by intros ->].
  intros Hs. pose proof (sortDeletedAccountNumList_Permutation l) as Hp.
  rewrite Hs in Hp. by apply Permutation_nil_l in Hp.
Qed.

(** ** [createAccount], [deleteAccount] and [transaction] *)

Lemma createAccount_unfold mem deleted next (lst : AccountList) ty name amount :
  createAccount mem deleted next lst ty name amount =
  if malloc_ok mem && strdup_ok mem then
    match deleted with
    | num :: deleted' =>
        Some (deleted', next, lst ++ [mkAccount num name ty amount],
              [MsgAccountCreated num name ty amount])
    | [] =>
        if next <? INT_MAX
        then Some ([], next + 1, lst ++ [mkAccount next name ty amount],
                   [MsgAccountCreated next name ty amount])
        else None
    end
  else Some (deleted, next, lst, [MsgAllocationFailed]).
Proof.
  unfold createAccount.
  destruct (malloc_ok mem), (strdup_ok mem); simpl; try done.
  destruct deleted as [|num deleted']; [destruct (next <? INT_MAX)|];
    by destruct lst.
Qed.

Lemma addDeletedAccountNum_unfold mem (lst : DeletedAccountNumList) n :
  addDeletedAccountNum mem lst n =
  if malloc_ok mem then (lst ++ [n], []) else (lst, [MsgAllocationFailed]).
Proof.
  unfold addDeletedAccountNum. destruct (malloc_ok mem); simpl; [|done].
  by destruct lst.
Qed.

(** A successful deletion removes the first node that matches. *)
Lemma delete_loop_Some (l : AccountList) ty name l' n :
  delete_loop l ty name = Some (l', n) ->
  exists l1 a l2,
    l = l1 ++ a :: l2 /\ l' = l1 ++ l2 /\ AccountNumber a = n /\
    Name a = name /\ accountType a = ty /\ ~ has_account l1 name ty.
Proof.
  revert l'. induction l as [|cur rest IH]; intros l'; simpl; [done|].
  destruct ((strcmp (Name cur) name =? 0) && AccountType_eqb (accountType cur) ty)
    eqn:E.
  - intros [= <- <-]. apply same_holder_spec in E as [Hn Ht].
    exists [], cur, rest. repeat split; try done.
    intros (a & Ha & _). by apply elem_of_nil in Ha.
  - destruct (delete_loop rest ty name) as [[rest' number]|]; [|done].
    intros [= <- <-].
    destruct (IH rest' eq_refl) as (l1 & a & l2 & -> & -> & Hnum & Hn & Ht & Hno).
    exists (cur :: l1), a, l2. repeat split; try done.
    intros (b & Hb & Hbn & Hbt). apply elem_of_cons in Hb as [->|Hb].
    + assert ((strcmp (Name cur) name =? 0)
              && AccountType_eqb (accountType cur) ty = true) as Hc
        by by apply same_holder_spec.
      congruence.
    + apply Hno. by exists b.
Qed.

Lemma delete_loop_None (l : AccountList) ty name :
  delete_loop l ty name = None <-> ~ has_account l name ty.
Proof.
  rewrite <- checkDuplicateAccount_none.
  induction l as [|cur rest IH]; simpl; [done|].
  destruct ((strcmp (Name cur) name =? 0) && AccountType_eqb (accountType cur) ty);
    [done|].
  rewrite <- IH. by destruct (delete_loop rest ty name) as [[? ?]|].
Qed.

(** A transaction never changes the number, holder or type of a node. *)
Lemma transaction_loop_numbers (l : AccountList) number amount code :
  AccountNumber <$> (transaction_loop l number amount code).1 = AccountNumber <$> l.
Proof.
  induction l as [|cur rest IH]; simpl; [done|].
  destruct (AccountNumber cur =? number).
  - destruct (code =? 1); [done|]. destruct (code =? 0); [|done].
    destruct (_ && _); [done|]. by destruct (_ && _).
  - destruct (transaction_loop rest number amount code) as [rest' out].
    simpl in *. by f_equal.
Qed.

Lemma transaction_numbers (l : AccountList) number amount code :
  AccountNumber <$> (transaction l number amount code).1 = AccountNumber <$> l.
Proof. destruct l; [done|]. apply transaction_loop_numbers. Qed.

(** A transaction prints no creation message. *)
Lemma transaction_created_numbers (l : AccountList) number amount code :
  created_numbers [(transaction l number amount code).2] = [].
Proof.
  destruct l as [|a0 l0]; [done|]. unfold transaction.
  generalize (a0 :: l0). clear. intros l.
  induction l as [|cur rest IH]; simpl; [done|].
  destruct (AccountNumber cur =? number).
  - destruct (code =? 1); [done|]. destruct (code =? 0); [|done].
    destruct (_ && _); [done|]. by destruct (_ && _).
  - by destruct (transaction_loop rest number amount code) as [rest' out].
Qed.

(** No node holds the number: the list is returned as it is. *)
Lemma transaction_loop_absent (l : AccountList) number amount code :
  number ∉ AccountNumber <$> l ->
  transaction_loop l number amount code = (l, MsgTransactionNotFound number).
Proof.
  induction l as [|cur rest IH]; simpl; [done|].
  rewrite not_elem_of_cons. intros [Hne Hrest].
  destruct (Z.eqb_spec (AccountNumber cur) number) as [Heq|_]; [done|].
  by rewrite (IH Hrest).
Qed.

(** The node reached by the loop: the first one that holds the number. *)
Lemma transaction_loop_first (l1 l2 : AccountList) (acc : AccountNode) number
    amount code l' out :
  number ∉ AccountNumber <$> l1 ->
  transaction_loop (acc :: l2) number amount code = (l', out) ->
  transaction_loop (l1 ++ acc :: l2) number amount code = (l1 ++ l', out).
Proof.
  intros Hl1 Hacc. induction l1 as [|cur rest IH]; [done|].
  rewrite fmap_cons, not_elem_of_cons in Hl1. destruct Hl1 as [Hne Hrest].
  change ((cur :: rest) ++ acc :: l2) with (cur :: (rest ++ acc :: l2)).
  cbn [transaction_loop].
  destruct (Z.eqb_spec (AccountNumber cur) number) as [Heq|_]; [done|].
  by rewrite (IH Hrest).
Qed.

(** ** The invariant of the command loop *)

Lemma state_ok_initial : state_ok initial_state.
Proof.
  split; simpl; [constructor|constructor|unfold INT_MAX; lia].
Qed.

(** Numbers may move between the two lists or get lost (a failed
    allocation in [addDeletedAccountNum]); the counter stays. *)
Lemma state_ok_shrink (s s' : State) (lost : list Z) :
  issued_numbers s ≡ₚ issued_numbers s' ++ lost ->
  globalNextAccountNumber s' = globalNextAccountNumber s ->
  state_ok s -> state_ok s'.
Proof.
  intros Hp Hn [Hnd Hr Hc]. rewrite Hp in Hnd, Hr.
  apply NoDup_app in Hnd as (Hnd & _ & _). apply Forall_app in Hr as [Hr _].
  split; [done|by rewrite Hn|by rewrite Hn].
Qed.

Lemma execute_create_invariant mem ts name amount s s' out :
  state_ok s -> execute mem (CREATE ts name amount) s = Some (s', out) ->
  state_ok s' /\
  globalNextAccountNumber s' = globalNextAccountNumber s
    + (if mints_fresh mem (CREATE ts name amount) s then 1 else 0) /\
  Forall (fun n => 100 <= n < globalNextAccountNumber s') (created_numbers out).
Proof.
  destruct s as [accounts pool next]. intros Hok. simpl.
  destruct (parseAccountType ts) as [ty|];
    [|intros [= <- <-]; simpl; split; [done|split; [lia|constructor]]].
  destruct (checkDuplicateAccount_bool accounts name ty) as [Hd|Hd]; rewrite Hd;
    simpl; [|intros [= <- <-]; simpl; split; [done|split; [lia|constructor]]].
  rewrite createAccount_unfold.
  assert (state_ok (mkState accounts (sortDeletedAccountNumList pool) next))
    as Hsorted_ok.
  { apply (state_ok_shrink (mkState accounts pool next) _ []); [|done|done].
    unfold issued_numbers, live_numbers. simpl.
    by rewrite app_nil_r, sortDeletedAccountNumList_Permutation. }
  destruct (malloc_ok mem), (strdup_ok mem); simpl;
    [|intros [= <- <-]; simpl; split; [done|split; [lia|constructor]]..].
  destruct (sortDeletedAccountNumList pool) as [|x pool'] eqn:Hsort.
  - apply (proj1 (sortDeletedAccountNumList_nil pool)) in Hsort. subst pool.
    destruct (Z.ltb_spec next INT_MAX) as [Hlt|]; [|done].
    intros [= <- <-]. simpl.
    destruct Hok as [Hnd Hr Hc]. unfold issued_numbers, live_numbers in *.
    simpl in *. rewrite app_nil_r in *.
    split; [split; simpl|split; [done|repeat constructor; lia]].
    + unfold issued_numbers, live_numbers. simpl.
      rewrite app_nil_r, fmap_app. simpl.
      apply NoDup_app. split; [done|]. split; [|apply NoDup_singleton].
      intros n Hn. rewrite Forall_forall in Hr. apply Hr in Hn.
      rewrite list_elem_of_singleton. lia.
    + unfold issued_numbers, live_numbers. simpl.
      rewrite app_nil_r, fmap_app. simpl.
      apply Forall_app. split; [|repeat constructor; lia].
      eapply Forall_impl; [exact Hr|]. simpl. intros; lia.
    + lia.
  - apply sortDeletedAccountNumList_head in Hsort as [Hp Hmin].
    intros [= <- <-]. simpl.
    assert (pool <> []) as Hne by (intros ->; by apply Permutation_nil_l in Hp).
    rewrite bool_decide_eq_false_2 by done.
    assert (issued_numbers (mkState accounts pool next)
            ≡ₚ issued_numbers
                 (mkState (accounts ++ [mkAccount x name ty amount]) pool' next) ++ [])
      as Hperm.
    { unfold issued_numbers, live_numbers. simpl.
      rewrite app_nil_r, fmap_app, Hp. simpl.
      by rewrite <- app_assoc. }
    split; [by eapply state_ok_shrink|]. split; [lia|].
    constructor; [|constructor]. simpl.
    destruct Hok as [_ Hr _]. rewrite Forall_forall in Hr. apply Hr.
    unfold issued_numbers. apply elem_of_app. right. simpl. rewrite Hp. by left.
Qed.

(** The invariant follows from the one before the command, once the
    numbers that got lost are named. *)
Ltac shrink_to lost :=
  match goal with
  | Hok : state_ok ?s |- state_ok ?s' =>
      apply (state_ok_shrink s s' lost); [|done|exact Hok]
  end.

Lemma execute_delete_invariant mem ts name s s' out :
  state_ok s -> execute mem (DELETE ts name) s = Some (s', out) ->
  state_ok s' /\ globalNextAccountNumber s' = globalNextAccountNumber s /\
  created_numbers out = [].
Proof.
  destruct s as [accounts pool next]. intros Hok. simpl.
  destruct (parseAccountType ts) as [ty|]; [|by intros [= <- <-]].
  unfold deleteAccount.
  destruct accounts as [|a0 accounts0] eqn:Hacc; [by intros [= <- <-]|].
  rewrite <- Hacc in *. clear Hacc a0 accounts0.
  destruct (delete_loop accounts ty name) as [[accounts' n]|] eqn:Hdel;
    [|by intros [= <- <-]].
  apply delete_loop_Some in Hdel as (l1 & a & l2 & -> & -> & Hn & _).
  destruct (n =? -1); simpl.
  - intros [= <- <-]. split; [|done].
    shrink_to ([n] : list Z).
    unfold issued_numbers, live_numbers. simpl.
    rewrite !fmap_app, fmap_cons, Hn. by solve_Permutation.
  - rewrite addDeletedAccountNum_unfold. destruct (malloc_ok mem).
    + intros [= <- <-]. split; [|done].
      shrink_to ([] : list Z).
      unfold issued_numbers, live_numbers. simpl.
      rewrite !fmap_app, fmap_cons, Hn. by solve_Permutation.
    + intros [= <- <-]. split; [|done].
      shrink_to ([n] : list Z).
      unfold issued_numbers, live_numbers. simpl.
      rewrite !fmap_app, fmap_cons, Hn. by solve_Permutation.
Qed.

(** Every command keeps the invariant; the counter grows by one exactly
    when a fresh number is minted, and the numbers reported as created
    are below the new counter. *)
Lemma execute_invariant mem c s s' out :
  state_ok s -> execute mem c s = Some (s', out) ->
  state_ok s' /\
  globalNextAccountNumber s' = globalNextAccountNumber s
    + (if mints_fresh mem c s then 1 else 0) /\
  Forall (fun n => 100 <= n < globalNextAccountNumber s') (created_numbers out).
Proof.
  intros Hok Hex. destruct c.
  - by eapply execute_create_invariant.
  - destruct (execute_delete_invariant _ _ _ _ _ _ Hok Hex) as (? & -> & ->).
    simpl. split; [done|]. split; [lia|constructor].
  - simpl in *. injection Hex as <- <-. simpl. split; [|split; [lia|]].
    + shrink_to ([] : list Z).
      unfold issued_numbers, live_numbers. simpl.
      by rewrite app_nil_r, sortAccountListByNumber_Permutation.
    + unfold display. destruct (sortAccountListByNumber _); constructor.
  - simpl in *. injection Hex as <- <-. simpl. split; [|split; [lia|]].
    + shrink_to ([] : list Z).
      unfold issued_numbers, live_numbers. simpl.
      by rewrite app_nil_r, sortAccountListByNumber_Permutation.
    + unfold lowBalanceAccounts. destruct (sortAccountListByNumber _); constructor.
  - simpl in *.
    pose proof (transaction_numbers (accountsHead s) targetAccountNumberInput
                  amountInput transactionCodeInput) as Hnum.
    pose proof (transaction_created_numbers (accountsHead s)
                  targetAccountNumberInput amountInput transactionCodeInput) as Hcr.
    destruct (transaction _ _ _ _) as [accounts' msg]. simpl in Hnum, Hcr.
    injection Hex as <- <-. split; [|split; [simpl; lia|]].
    + shrink_to ([] : list Z).
      unfold issued_numbers, live_numbers. simpl.
      by rewrite app_nil_r, Hnum.
    + simpl. rewrite Hcr. constructor.
  - simpl in *. injection Hex as <- <-. simpl. split; [done|]. split; [lia|constructor].
  - simpl in *. injection Hex as <- <-. simpl. split; [done|]. split; [lia|constructor].
Qed.

Lemma created_numbers_app (o1 o2 : list Output) :
  created_numbers (o1 ++ o2) = created_numbers o1 ++ created_numbers o2.
Proof.
  induction o1 as [|o o1 IH]; simpl; [done|].
  destruct o; simpl; by rewrite ?IH.
Qed.

(** A command that mints a fresh number reports the old value of the
    counter. *)
Lemma execute_fresh_number mem c s s' out :
  execute mem c s = Some (s', out) -> mints_fresh mem c s = true ->
  created_numbers out = [globalNextAccountNumber s].
Proof.
  destruct c; simpl; try done.
  destruct (parseAccountType accountTypeInputStr) as [ty|]; [|done].
  intros Hex Hfresh.
  apply andb_true_iff in Hfresh as [Hfresh Hpool].
  apply andb_true_iff in Hfresh as [Hfresh Hs].
  apply andb_true_iff in Hfresh as [Hdup Hm].
  apply bool_decide_eq_true_1 in Hpool.
  rewrite Hdup, Hpool, createAccount_unfold, Hm, Hs in Hex. simpl in Hex.
  destruct (globalNextAccountNumber s <? INT_MAX); [|done].
  by injection Hex as <- <-.
Qed.

Lemma main_loop_invariant input s s' outs :
  state_ok s -> main_loop input s = Some (s', outs) ->
  state_ok s' /\ globalNextAccountNumber s <= globalNextAccountNumber s' /\
  Forall (fun n => 100 <= n < globalNextAccountNumber s') (created_numbers outs).
Proof.
  revert s outs. induction input as [|[mem c] input IH]; intros s outs Hok.
  - intros [= <- <-]. split; [done|]. split; [lia|constructor].
  - assert (c = EXIT \/ main_loop ((mem, c) :: input) s =
              match execute mem c s with
              | None => None
              | Some (s1, out) =>
                  match main_loop input s1 with
                  | None => None
                  | Some (s2, outs') => Some (s2, out ++ outs')
                  end
              end) as [-> | ->] by (destruct c; auto).
    { intros [= <- <-]. split; [done|]. split; [lia|constructor]. }
    destruct (execute mem c s) as [[s1 out]|] eqn:Hex; [|done].
    destruct (main_loop input s1) as [[s2 outs']|] eqn:Hloop; [|done].
    intros [= <- <-].
    destruct (execute_invariant _ _ _ _ _ Hok Hex) as (Hok1 & Hnext & Hcr).
    destruct (IH _ _ Hok1 Hloop) as (Hok2 & Hle & Hcr').
    split; [done|]. split; [destruct (mints_fresh mem c s); lia|].
    rewrite created_numbers_app. apply Forall_app. split; [|done].
    eapply Forall_impl; [exact Hcr|]. simpl. intros; lia.
Qed.

Lemma main_state_ok input s outs : main input = Some (s, outs) -> state_ok s.
Proof.
  intros Hmain. by apply (main_loop_invariant input initial_state s outs
                            state_ok_initial) in Hmain as [? _].
Qed.

(** ** Tables *)

Lemma display_rows_fmap (l : AccountList) : display_rows l = display_row <$> l.
Proof. induction l as [|a l IH]; simpl; [done|]. by rewrite IH. Qed.

Lemma low_balance_rows_filter (l : AccountList) :
  low_balance_rows l = low_balance_row <$> filter is_low l.
Proof.
  induction l as [|a l IH]; [done|].
  cbn [low_balance_rows]. rewrite filter_cons.
  destruct (f32_lt (Amount a) (f32_of_int 100)) eqn:E.
  - rewrite decide_True by done. rewrite fmap_cons. by rewrite IH.
  - rewrite decide_False; [exact IH|]. unfold is_low. by rewrite E.
Qed.

Lemma listed_numbers_display (l : AccountList) :
  listed_numbers (display l) = AccountNumber <$> l.
Proof.
  destruct l as [|a l]; [done|]. unfold display, listed_numbers.
  rewrite display_rows_fmap, <- list_fmap_compose. done.
Qed.

Lemma low_balance_listing_spec (l : AccountList) :
  low_balance_listing (lowBalanceAccounts l) = low_balance_row <$> filter is_low l.
Proof.
  destruct l as [|a l]; [done|]. unfold lowBalanceAccounts, low_balance_listing.
  apply low_balance_rows_filter.
Qed.

Lemma listed_numbers_lowBalance (l : AccountList) :
  listed_numbers (lowBalanceAccounts l) = AccountNumber <$> filter is_low l.
Proof.
  destruct l as [|a l]; [done|]. unfold lowBalanceAccounts, listed_numbers.
  rewrite low_balance_rows_filter, <- list_fmap_compose. done.
Qed.

(** A sorted list without repeated keys is strictly sorted, and so is
    every selection of its elements. *)
Lemma sorted_numbers_strict (l : AccountList) :
  StronglySorted by_number l -> NoDup (AccountNumber <$> l) ->
  StronglySorted Z.lt (AccountNumber <$> l).
Proof.
  induction 1 as [|a l Hs IH Hall]; simpl; [constructor|].
  rewrite NoDup_cons. intros [Hnotin Hnd]. constructor; [by apply IH|].
  apply Forall_fmap. rewrite Forall_forall in Hall |- *.
  intros b Hb. specialize (Hall b Hb). unfold by_number in Hall. simpl.
  assert (AccountNumber a <> AccountNumber b); [|lia].
  intros Heq. apply Hnotin. rewrite Heq. apply list_elem_of_fmap. by exists b.
Qed.

Lemma StronglySorted_filter {A : Type} (R : relation A) (P : A -> Prop)
    `{forall x, Decision (P x)} (l : list A) :
  StronglySorted R l -> StronglySorted R (filter P l).
Proof.
  induction 1 as [|a l Hs IH Hall]; [constructor|].
  rewrite filter_cons. destruct (decide (P a)); [|done].
  constructor; [done|].
  rewrite Forall_forall in Hall |- *. intros b Hb.
  apply list_elem_of_filter in Hb as [_ Hb]. by apply Hall.
Qed.

(** A creation message comes with the new node appended at the end. *)
Lemma execute_create_appends mem ts name amount s s' o :
  execute mem (CREATE ts name amount) s = Some (s', [o]) ->
  forall n name' ty' amount', o = MsgAccountCreated n name' ty' amount' ->
  accountsHead s' = accountsHead s ++ [mkAccount n name' ty' amount'].
Proof.
  simpl. destruct (parseAccountType ts) as [ty|]; [|by intros [= <- <-]].
  destruct (negb _); [by intros [= <- <-]|].
  rewrite createAccount_unfold.
  destruct (malloc_ok mem && strdup_ok mem); [|by intros [= <- <-]].
  destruct (sortDeletedAccountNumList _) as [|x pool'].
  - destruct (_ <? _); [|done]. intros [= <- <-] ? ? ? ?. by intros [= <- <- <- <-].
  - intros [= <- <-] ? ? ? ?. by intros [= <- <- <- <-].
Qed.

(** ** Sorting: claims C10, C6 and C7 *)

(** C10: sorting the account list by number, as DISPLAY and LOWBALANCE
    do, only reorders the live collection.  The result is a permutation
    of the nodes taken as whole records, so every account keeps its
    number, name, type and balance together, although the loop moves the
    four fields one by one; the pool and the counter are left alone. *)
Theorem sort_by_number_permutes_whole_accounts (mem : Alloc) (s : State) :
  let sorted := sortAccountListByNumber (accountsHead s) in
  sorted ≡ₚ accountsHead s /\
  length sorted = length (accountsHead s) /\
  (forall a, a ∈ sorted <-> a ∈ accountsHead s) /\
  (forall current minNode,
     swap_account_fields current minNode = (minNode, current)) /\
  execute mem DISPLAY s
  = Some (mkState sorted (deletedAccountNumbersHead s) (globalNextAccountNumber s),
          [display sorted]) /\
  execute mem LOWBALANCE s
  = Some (mkState sorted (deletedAccountNumbersHead s) (globalNextAccountNumber s),
          [lowBalanceAccounts sorted]).
Proof.
  intros sorted. subst sorted.
  pose proof (sortAccountListByNumber_Permutation (accountsHead s)) as Hp.
  split; [exact Hp|]. split; [by rewrite Hp|].
  split; [intros a; by rewrite Hp|].
  split; [apply swap_account_fields_exchange|]. by split.
Qed.

(** C6: in every state reached by the command loop, whatever creations,
    deletions and transactions came before, the table printed by DISPLAY
    lists the live accounts, all of them and each once with its own
    fields, in ascending (here strictly ascending) order of account
    number; the table of LOWBALANCE is in that order too.  Both commands
    sort the list again each time they run, while a creation appends
    the new node at the end of the list. *)
Theorem display_lists_in_ascending_order input s outs (mem : Alloc) :
  main input = Some (s, outs) ->
  let sorted := sortAccountListByNumber (accountsHead s) in
  execute mem DISPLAY s
  = Some (mkState sorted (deletedAccountNumbersHead s) (globalNextAccountNumber s),
          [display sorted]) /\
  execute mem LOWBALANCE s
  = Some (mkState sorted (deletedAccountNumbersHead s) (globalNextAccountNumber s),
          [lowBalanceAccounts sorted]) /\
  sorted ≡ₚ accountsHead s /\
  (accountsHead s <> [] ->
   display sorted = MsgAccountTable (display_row <$> sorted)) /\
  (accountsHead s = [] -> display sorted = MsgNoAccountsToDisplay) /\
  listed_numbers (display sorted) = AccountNumber <$> sorted /\
  listed_numbers (display sorted) ≡ₚ live_numbers s /\
  listed_numbers (lowBalanceAccounts sorted)
  ≡ₚ AccountNumber <$> filter is_low (accountsHead s) /\
  StronglySorted Z.lt (listed_numbers (display sorted)) /\
  StronglySorted Z.lt (listed_numbers (lowBalanceAccounts sorted)) /\
  (forall ts name amount s' n name' ty' amount',
     execute mem (CREATE ts name amount) s
     = Some (s', [MsgAccountCreated n name' ty' amount']) ->
     accountsHead s' = accountsHead s ++ [mkAccount n name' ty' amount']).
Proof.
  intros Hmain sorted.
  apply main_state_ok in Hmain as [Hnd _ _].
  unfold issued_numbers, live_numbers in Hnd.
  apply NoDup_app in Hnd as (Hnd & _ & _).
  pose proof (sortAccountListByNumber_Permutation (accountsHead s)) as Hp.
  pose proof (sortAccountListByNumber_sorted (accountsHead s)) as Hsorted.
  fold sorted in Hp, Hsorted.
  do 2 (split; [done|]). split; [exact Hp|]. split; [|split].
  - intros Hne. destruct sorted as [|a0 l0] eqn:Hs.
    + symmetry in Hp. by apply Permutation_nil_r in Hp.
    + unfold display. by rewrite display_rows_fmap.
  - intros Hnil. rewrite Hnil in Hp. apply Permutation_nil_r in Hp.
    by rewrite Hp.
  - split; [apply listed_numbers_display|].
    split; [unfold live_numbers; by rewrite listed_numbers_display, Hp|].
    split; [by rewrite listed_numbers_lowBalance, Hp|].
    rewrite <- Hp in Hnd. split; [|split].
    + rewrite listed_numbers_display. by apply sorted_numbers_strict.
    + rewrite listed_numbers_lowBalance. apply sorted_numbers_strict.
      * by apply StronglySorted_filter.
      * eapply sublist_NoDup; [exact Hnd|].
        apply fmap_sublist, sublist_filter.
    + intros ts name amount s' n name' ty' amount' Hex.
      by eapply execute_create_appends.
Qed.

(** C7: LOWBALANCE lists exactly the live accounts whose balance is
    strictly below 100.00, in ascending order of account number: its rows
    are those of the accounts that pass the test [balance < 100], taken
    from the list sorted by number.  A balance of exactly 100.00 is left
    out and one of 99.99 is listed. *)
Theorem lowbalance_lists_accounts_below_100 (mem : Alloc) (s : State) :
  let sorted := sortAccountListByNumber (accountsHead s) in
  let low := filter is_low sorted in
  execute mem LOWBALANCE s
  = Some (mkState sorted (deletedAccountNumbersHead s) (globalNextAccountNumber s),
          [lowBalanceAccounts sorted]) /\
  low_balance_listing (lowBalanceAccounts sorted) = low_balance_row <$> low /\
  low ≡ₚ filter is_low (accountsHead s) /\
  (forall a, a ∈ low <-> a ∈ accountsHead s /\ f32_lt (Amount a) (f32_of_int 100) = true) /\
  StronglySorted by_number low /\
  (forall a, Amount a = f32_of_int 100 -> a ∉ low) /\
  (forall a, a ∈ accountsHead s -> Amount a = f32_of_ratio 9999 100 -> a ∈ low).
Proof.
  intros sorted low.
  pose proof (sortAccountListByNumber_Permutation (accountsHead s)) as Hp.
  pose proof (sortAccountListByNumber_sorted (accountsHead s)) as Hsorted.
  fold sorted in Hp, Hsorted.
  assert (forall a, a ∈ low <->
            a ∈ accountsHead s /\ f32_lt (Amount a) (f32_of_int 100) = true) as Hin.
  { intros a. unfold low. rewrite list_elem_of_filter, Hp. unfold is_low. tauto. }
  split; [done|]. split; [apply low_balance_listing_spec|].
  split; [unfold low; by rewrite Hp|]. split; [exact Hin|].
  split; [by apply StronglySorted_filter|]. split.
  - intros a Ha Hlow. apply Hin in Hlow as [_ Hlow]. by rewrite Ha in Hlow.
  - intros a Ha Hb. apply Hin. split; [done|]. by rewrite Hb.
Qed.

(** ** Minting account numbers: claims C1 and C2 *)

Lemma execute_create_unfold s ts ty name amount :
  parseAccountType ts = Some ty ->
  checkDuplicateAccount (accountsHead s) name ty = 0 ->
  execute alloc_ok (CREATE ts name amount) s =
  match sortDeletedAccountNumList (deletedAccountNumbersHead s) with
  | x :: pool' =>
      Some (mkState (accountsHead s ++ [mkAccount x name ty amount]) pool'
              (globalNextAccountNumber s),
            [MsgAccountCreated x name ty amount])
  | [] =>
      if globalNextAccountNumber s <? INT_MAX
      then Some (mkState
                   (accountsHead s ++ [mkAccount (globalNextAccountNumber s) name ty amount])
                   [] (globalNextAccountNumber s + 1),
                 [MsgAccountCreated (globalNextAccountNumber s) name ty amount])
      else None
  end.
Proof.
  intros Hty Hdup. simpl. rewrite Hty, Hdup, createAccount_unfold. simpl.
  destruct (sortDeletedAccountNumList _); [|done].
  by destruct (_ <? _).
Qed.

Lemma sortDeletedAccountNumList_two (pool : list Z) (X Y : Z) :
  pool ≡ₚ [X; Y] -> X < Y -> sortDeletedAccountNumList pool = [X; Y].
Proof.
  intros Hp Hlt. symmetry in Hp.
  apply Permutation_length_2_inv in Hp as [-> | ->]; cbn.
  - destruct (Z.ltb_spec Y X); [lia|done].
  - destruct (Z.ltb_spec X Y); [done|lia].
Qed.

(** A creation that mints no fresh number takes its number from the
    pool. *)
Lemma execute_recycled_number mem c s s' out :
  execute mem c s = Some (s', out) -> mints_fresh mem c s = false ->
  Forall (fun n => n ∈ deletedAccountNumbersHead s) (created_numbers out).
Proof.
  destruct c; simpl.
  - destruct (parseAccountType accountTypeInputStr) as [ty|];
      [|intros [= <- <-]; constructor].
    destruct (checkDuplicateAccount_bool (accountsHead s) nameInput ty) as [Hd|Hd];
      rewrite Hd; simpl; [|intros [= <- <-]; constructor].
    rewrite createAccount_unfold.
    destruct (malloc_ok mem), (strdup_ok mem); simpl;
      try (intros [= <- <-]; constructor).
    destruct (sortDeletedAccountNumList _) as [|x pool'] eqn:Hsort.
    + apply (proj1 (sortDeletedAccountNumList_nil _)) in Hsort. rewrite Hsort.
      by rewrite bool_decide_eq_true_2.
    + apply sortDeletedAccountNumList_head in Hsort as [Hp _].
      intros [= <- <-] _. repeat constructor. rewrite Hp. by left.
  - intros Hex _.
    destruct (parseAccountType accountTypeInputStr) as [ty|];
      [|injection Hex as <- <-; constructor].
    unfold deleteAccount in Hex.
    destruct (accountsHead s) as [|a0 l0]; [injection Hex as <- <-; constructor|].
    destruct (delete_loop (a0 :: l0) ty nameInput) as [[l' n]|];
      [|injection Hex as <- <-; constructor].
    destruct (negb (n =? -1)); [|injection Hex as <- <-; constructor].
    rewrite addDeletedAccountNum_unfold in Hex.
    destruct (malloc_ok mem); injection Hex as <- <-; constructor.
  - intros [= <- <-] _. simpl. unfold display.
    destruct (sortAccountListByNumber _); constructor.
  - intros [= <- <-] _. simpl. unfold lowBalanceAccounts.
    destruct (sortAccountListByNumber _); constructor.
  - intros Hex _.
    pose proof (transaction_created_numbers (accountsHead s)
                  targetAccountNumberInput amountInput transactionCodeInput) as Hcr.
    destruct (transaction _ _ _ _) as [accounts' msg]. simpl in Hcr.
    injection Hex as <- <-. simpl. rewrite Hcr. constructor.
  - intros [= <- <-] _. constructor.
  - intros [= <- <-] _. constructor.
Qed.

(** C1: a creation takes its account number from the recycle pool first.
    With a non-empty pool the new account gets the smallest number of the
    pool, that number leaves the pool and the counter keeps its value;
    with an empty pool it gets the value of the counter, which is then
    incremented.  In particular, when the pool holds exactly two numbers
    X < Y, the next creation reuses X, the one after reuses Y, and only
    the third one mints a fresh number. *)
Theorem create_takes_recycled_numbers_first s ts ty name amount :
  parseAccountType ts = Some ty ->
  checkDuplicateAccount (accountsHead s) name ty = 0 ->
  (deletedAccountNumbersHead s <> [] ->
   exists x pool',
     execute alloc_ok (CREATE ts name amount) s
     = Some (mkState (accountsHead s ++ [mkAccount x name ty amount]) pool'
               (globalNextAccountNumber s),
             [MsgAccountCreated x name ty amount]) /\
     deletedAccountNumbersHead s ≡ₚ x :: pool' /\
     Forall (Z.le x) (deletedAccountNumbersHead s)) /\
  (deletedAccountNumbersHead s = [] -> globalNextAccountNumber s < INT_MAX ->
   execute alloc_ok (CREATE ts name amount) s
   = Some (mkState
             (accountsHead s ++ [mkAccount (globalNextAccountNumber s) name ty amount])
             [] (globalNextAccountNumber s + 1),
           [MsgAccountCreated (globalNextAccountNumber s) name ty amount])) /\
  (forall X Y ts2 ty2 name2 amount2 ts3 ty3 name3 amount3,
     deletedAccountNumbersHead s ≡ₚ [X; Y] -> X < Y ->
     globalNextAccountNumber s < INT_MAX ->
     parseAccountType ts2 = Some ty2 -> parseAccountType ts3 = Some ty3 ->
     let a1 := mkAccount X name ty amount in
     let a2 := mkAccount Y name2 ty2 amount2 in
     let a3 := mkAccount (globalNextAccountNumber s) name3 ty3 amount3 in
     checkDuplicateAccount (accountsHead s ++ [a1]) name2 ty2 = 0 ->
     checkDuplicateAccount ((accountsHead s ++ [a1]) ++ [a2]) name3 ty3 = 0 ->
     main_loop [(alloc_ok, CREATE ts name amount);
                (alloc_ok, CREATE ts2 name2 amount2);
                (alloc_ok, CREATE ts3 name3 amount3)] s
     = Some (mkState (((accountsHead s ++ [a1]) ++ [a2]) ++ [a3]) []
               (globalNextAccountNumber s + 1),
             [MsgAccountCreated X name ty amount;
              MsgAccountCreated Y name2 ty2 amount2;
              MsgAccountCreated (globalNextAccountNumber s) name3 ty3 amount3])).
Proof.
  intros Hty Hdup.
  pose proof (execute_create_unfold s ts ty name amount Hty Hdup) as Hex.
  split; [|split].
  - intros Hne.
    destruct (sortDeletedAccountNumList (deletedAccountNumbersHead s))
      as [|x pool'] eqn:Hsort.
    + by apply (proj1 (sortDeletedAccountNumList_nil _)) in Hsort.
    + exists x, pool'. split; [exact Hex|].
      by apply sortDeletedAccountNumList_head.
  - intros Hnil Hlt. rewrite Hnil in Hex. simpl in Hex.
    destruct (Z.ltb_spec (globalNextAccountNumber s) INT_MAX); [done|lia].
  - intros X Y ts2 ty2 name2 amount2 ts3 ty3 name3 amount3 Hp HXY Hlt Hty2 Hty3
      a1 a2 a3 Hdup2 Hdup3.
    rewrite (sortDeletedAccountNumList_two _ X Y Hp HXY) in Hex.
    cbn [main_loop]. rewrite Hex. cbn beta iota. fold a1.
    rewrite (execute_create_unfold
               (mkState (accountsHead s ++ [a1]) [Y] (globalNextAccountNumber s))
               ts2 ty2 name2 amount2 Hty2 Hdup2).
    cbn [deletedAccountNumbersHead accountsHead globalNextAccountNumber
         sortDeletedAccountNumList]. fold a2.
    rewrite (execute_create_unfold
               (mkState ((accountsHead s ++ [a1]) ++ [a2]) []
                  (globalNextAccountNumber s))
               ts3 ty3 name3 amount3 Hty3 Hdup3).
    cbn [deletedAccountNumbersHead accountsHead globalNextAccountNumber
         sortDeletedAccountNumList].
    by destruct (Z.ltb_spec (globalNextAccountNumber s) INT_MAX); [|lia].
Qed.

(** C2: in every state reached from the initial state (no account, empty
    pool, counter 100) the live accounts have pairwise distinct numbers.
    The counter never decreases: a command adds one to it exactly when it
    mints a fresh number, which is the old value of the counter, and
    leaves it as it is otherwise, any number then created coming from
    the pool.  So every number created so far, like every number live or
    pooled, lies from 100 up to, and excluding, the current counter. *)
Theorem account_numbers_unique_and_counter_monotone input s outs :
  main input = Some (s, outs) ->
  NoDup (live_numbers s) /\
  Forall (fun n => 100 <= n < globalNextAccountNumber s) (created_numbers outs) /\
  Forall (fun n => 100 <= n < globalNextAccountNumber s) (issued_numbers s) /\
  100 <= globalNextAccountNumber s /\
  (forall mem c s' out,
     execute mem c s = Some (s', out) ->
     globalNextAccountNumber s <= globalNextAccountNumber s' /\
     globalNextAccountNumber s'
     = globalNextAccountNumber s + (if mints_fresh mem c s then 1 else 0) /\
     (mints_fresh mem c s = true ->
      created_numbers out = [globalNextAccountNumber s]) /\
     (mints_fresh mem c s = false ->
      Forall (fun n => n ∈ deletedAccountNumbersHead s) (created_numbers out))).
Proof.
  intros Hmain.
  destruct (main_loop_invariant input initial_state s outs state_ok_initial Hmain)
    as (Hok & _ & Hcreated).
  pose proof Hok as [Hnd Hr Hc].
  apply NoDup_app in Hnd as (Hnd & _ & _).
  split; [done|]. split; [done|]. split; [done|]. split; [lia|].
  intros mem c s' out Hex.
  destruct (execute_invariant mem c s s' out Hok Hex) as (_ & Hnext & _).
  split; [destruct (mints_fresh mem c s); lia|]. split; [done|].
  split; [by apply execute_fresh_number with s'|].
  by apply execute_recycled_number with s'.
Qed.

(** ** Transactions: claims C3, C4, C8 and C9 *)

Lemma execute_transaction mem (s : State) number amount code l' out :
  transaction (accountsHead s) number amount code = (l', out) ->
  execute mem (TRANSACTION number amount code) s
  = Some (mkState l' (deletedAccountNumbersHead s) (globalNextAccountNumber s),
          [out]).
Proof. intros H. simpl. by rewrite H. Qed.

Lemma state_eta (s : State) :
  mkState (accountsHead s) (deletedAccountNumbersHead s) (globalNextAccountNumber s)
  = s.
Proof. by destruct s. Qed.

(** The transaction reaches [acc], the first node with its number. *)
Lemma transaction_first (l1 l2 : AccountList) (acc : AccountNode) amount code
    l' out :
  AccountNumber acc ∉ AccountNumber <$> l1 ->
  transaction_loop (acc :: l2) (AccountNumber acc) amount code = (l', out) ->
  transaction (l1 ++ acc :: l2) (AccountNumber acc) amount code = (l1 ++ l', out).
Proof.
  intros Hl1 Hacc. unfold transaction.
  destruct (l1 ++ acc :: l2) as [|a0 l0] eqn:E; [by destruct l1|].
  rewrite <- E. by apply transaction_loop_first.
Qed.

(** C3: a withdrawal of [amount] from a savings account with balance B
    is refused as an insufficient balance exactly when B - amount < 100,
    the difference and the comparison being those of binary32; a refusal
    leaves the whole state as it was.  Otherwise, and so when the
    difference is exactly 100, the withdrawal succeeds and the balance
    becomes B - amount. *)
Theorem savings_withdrawal_keeps_floor_of_100 mem (s : State) l1 acc l2 amount :
  accountsHead s = l1 ++ acc :: l2 ->
  AccountNumber acc ∉ AccountNumber <$> l1 ->
  accountType acc = SAVINGS ->
  let B := Amount acc in
  let request := TRANSACTION (AccountNumber acc) amount 0 in
  let withdrawn :=
    mkState (l1 ++ set_Amount (f32_sub B amount) acc :: l2)
      (deletedAccountNumbersHead s) (globalNextAccountNumber s) in
  ((exists s' o, execute mem request s = Some (s', [o]) /\
                 error_of o = Some InsufficientBalance)
   <-> f32_lt (f32_sub B amount) (f32_of_int 100) = true) /\
  (f32_lt (f32_sub B amount) (f32_of_int 100) = true ->
   execute mem request s = Some (s, [MsgInsufficientSavings])) /\
  (f32_lt (f32_sub B amount) (f32_of_int 100) = false ->
   execute mem request s
   = Some (withdrawn,
           [MsgWithdrawalSuccessful (AccountNumber acc) (f32_sub B amount)])) /\
  (f32_sub B amount = f32_of_int 100 ->
   execute mem request s
   = Some (withdrawn, [MsgWithdrawalSuccessful (AccountNumber acc) (f32_of_int 100)])).
Proof.
  intros Hacc Hfirst Hty B request withdrawn.
  assert (forall l' out,
            transaction_loop (acc :: l2) (AccountNumber acc) amount 0 = (l', out) ->
            execute mem request s
            = Some (mkState (l1 ++ l') (deletedAccountNumbersHead s)
                      (globalNextAccountNumber s), [out])) as Hrun.
  { intros l' out Hloop. apply execute_transaction. rewrite Hacc.
    by apply transaction_first. }
  assert (f32_lt (f32_sub B amount) (f32_of_int 100) = true ->
          execute mem request s = Some (s, [MsgInsufficientSavings])) as Hfail.
  { intros Hlow. rewrite (Hrun (acc :: l2) MsgInsufficientSavings).
    - by rewrite <- Hacc, state_eta.
    - cbn [transaction_loop]. rewrite Z.eqb_refl, Hty.
      cbn [Z.eqb AccountType_eqb andb]. fold B.
      by rewrite Hlow. }
  assert (f32_lt (f32_sub B amount) (f32_of_int 100) = false ->
          execute mem request s
          = Some (withdrawn,
                  [MsgWithdrawalSuccessful (AccountNumber acc) (f32_sub B amount)]))
    as Hsucc.
  { intros Hhigh. apply Hrun.
    cbn [transaction_loop]. rewrite Z.eqb_refl, Hty.
      cbn [Z.eqb AccountType_eqb andb]. fold B.
    by rewrite Hhigh. }
  split; [|split; [exact Hfail|split; [exact Hsucc|]]].
  - split.
    + intros (s' & o & Hex & Herr).
      destruct (f32_lt (f32_sub B amount) (f32_of_int 100)) eqn:E; [done|].
      rewrite (Hsucc eq_refl) in Hex. by injection Hex as <- <-.
    + intros Hlow. exists s, MsgInsufficientSavings. by rewrite (Hfail Hlow).
  - intros H100. rewrite Hsucc; [by rewrite H100|]. by rewrite H100.
Qed.

(** C4: a withdrawal of [amount] from a current account with balance B is
    refused as an insufficient balance exactly when B - amount < 0 (in
    binary32), and a refusal leaves the whole state as it was.  Otherwise,
    and so when the difference is exactly 0, the withdrawal succeeds and
    the balance becomes B - amount. *)
Theorem current_withdrawal_cannot_overdraw mem (s : State) l1 acc l2 amount :
  accountsHead s = l1 ++ acc :: l2 ->
  AccountNumber acc ∉ AccountNumber <$> l1 ->
  accountType acc = CURRENT ->
  let B := Amount acc in
  let request := TRANSACTION (AccountNumber acc) amount 0 in
  let withdrawn :=
    mkState (l1 ++ set_Amount (f32_sub B amount) acc :: l2)
      (deletedAccountNumbersHead s) (globalNextAccountNumber s) in
  ((exists s' o, execute mem request s = Some (s', [o]) /\
                 error_of o = Some InsufficientBalance)
   <-> f32_lt (f32_sub B amount) (f32_of_int 0) = true) /\
  (f32_lt (f32_sub B amount) (f32_of_int 0) = true ->
   execute mem request s = Some (s, [MsgInsufficientCurrent])) /\
  (f32_lt (f32_sub B amount) (f32_of_int 0) = false ->
   execute mem request s
   = Some (withdrawn,
           [MsgWithdrawalSuccessful (AccountNumber acc) (f32_sub B amount)])) /\
  (f32_sub B amount = f32_of_int 0 ->
   execute mem request s
   = Some (withdrawn, [MsgWithdrawalSuccessful (AccountNumber acc) (f32_of_int 0)])).
Proof.
  intros Hacc Hfirst Hty B request withdrawn.
  assert (forall l' out,
            transaction_loop (acc :: l2) (AccountNumber acc) amount 0 = (l', out) ->
            execute mem request s
            = Some (mkState (l1 ++ l') (deletedAccountNumbersHead s)
                      (globalNextAccountNumber s), [out])) as Hrun.
  { intros l' out Hloop. apply execute_transaction. rewrite Hacc.
    by apply transaction_first. }
  assert (f32_lt (f32_sub B amount) (f32_of_int 0) = true ->
          execute mem request s = Some (s, [MsgInsufficientCurrent])) as Hfail.
  { intros Hlow. rewrite (Hrun (acc :: l2) MsgInsufficientCurrent).
    - by rewrite <- Hacc, state_eta.
    - cbn [transaction_loop]. rewrite Z.eqb_refl, Hty.
      cbn [Z.eqb AccountType_eqb andb]. fold B.
      by rewrite Hlow. }
  assert (f32_lt (f32_sub B amount) (f32_of_int 0) = false ->
          execute mem request s
          = Some (withdrawn,
                  [MsgWithdrawalSuccessful (AccountNumber acc) (f32_sub B amount)]))
    as Hsucc.
  { intros Hhigh. apply Hrun.
    cbn [transaction_loop]. rewrite Z.eqb_refl, Hty.
      cbn [Z.eqb AccountType_eqb andb]. fold B.
    by rewrite Hhigh. }
  split; [|split; [exact Hfail|split; [exact Hsucc|]]].
  - split.
    + intros (s' & o & Hex & Herr).
      destruct (f32_lt (f32_sub B amount) (f32_of_int 0)) eqn:E; [done|].
      rewrite (Hsucc eq_refl) in Hex. by injection Hex as <- <-.
    + intros Hlow. exists s, MsgInsufficientCurrent. by rewrite (Hfail Hlow).
  - intros H0. rewrite Hsucc; [by rewrite H0|]. by rewrite H0.
Qed.

(** No live account holds the number: the list comes back as it is, with
    one of the two not-found messages. *)
Lemma execute_transaction_absent mem (s : State) number amount code :
  number ∉ AccountNumber <$> accountsHead s ->
  execute mem (TRANSACTION number amount code) s
  = Some (s, [match accountsHead s with
              | [] => MsgNoAccountsForTransactions
              | _ => MsgTransactionNotFound number
              end]).
Proof.
  intros Habsent.
  destruct (accountsHead s) as [|a0 l0] eqn:Hacc.
  - rewrite (execute_transaction mem s number amount code []
               MsgNoAccountsForTransactions); [|by rewrite Hacc].
    by rewrite <- Hacc, state_eta.
  - rewrite (execute_transaction mem s number amount code (a0 :: l0)
               (MsgTransactionNotFound number)).
    + by rewrite <- Hacc, state_eta.
    + rewrite Hacc. unfold transaction. by apply transaction_loop_absent.
Qed.

(** C8: a transaction on a number that no live account holds is answered
    with an account-not-found message, whatever the amount and the code,
    and leaves the state as it was: balances, membership, pool and
    counter.  The message is the one for a missing number, or, when there
    is no account at all, the one for an empty list. *)
Theorem transaction_on_unknown_number_changes_nothing mem (s : State) number
    amount code :
  number ∉ live_numbers s ->
  exists o,
    execute mem (TRANSACTION number amount code) s = Some (s, [o]) /\
    error_of o = Some AccountNotFound /\
    o = match accountsHead s with
        | [] => MsgNoAccountsForTransactions
        | _ => MsgTransactionNotFound number
        end.
Proof.
  intros Habsent. eexists. split; [by apply execute_transaction_absent|].
  split; [|done]. by destruct (accountsHead s).
Qed.

(** A code other than 0 and 1 on a number that some account holds. *)
Lemma transaction_loop_invalid_code (l : AccountList) number amount code :
  code <> 0 -> code <> 1 -> number ∈ AccountNumber <$> l ->
  transaction_loop l number amount code = (l, MsgInvalidTransactionCode).
Proof.
  intros H0 H1. induction l as [|cur rest IH]; simpl.
  - intros Hin. by apply elem_of_nil in Hin.
  - rewrite elem_of_cons. intros Hin.
    destruct (Z.eqb_spec (AccountNumber cur) number) as [Heq|Hne].
    + destruct (Z.eqb_spec code 1); [done|]. by destruct (Z.eqb_spec code 0).
    + destruct Hin as [Hin|Hin]; [done|]. by rewrite (IH Hin).
Qed.

(** C9, as the program has it: a transaction whose code is neither 1 nor
    0 never changes the state.  The code is looked at inside [transaction],
    once the account is found: the answer is the invalid-code message when
    some live account holds the number, and the account-not-found message
    when none does. *)
Theorem invalid_code_rejected_after_lookup mem (s : State) number amount code :
  code <> 0 -> code <> 1 ->
  exists o,
    execute mem (TRANSACTION number amount code) s = Some (s, [o]) /\
    (number ∈ live_numbers s -> o = MsgInvalidTransactionCode) /\
    (number ∉ live_numbers s -> error_of o = Some AccountNotFound).
Proof.
  intros H0 H1. unfold live_numbers.
  destruct (decide (number ∈ AccountNumber <$> accountsHead s)) as [Hin|Hout].
  - exists MsgInvalidTransactionCode. split; [|done].
    rewrite (execute_transaction mem s number amount code (accountsHead s)
               MsgInvalidTransactionCode).
    + by rewrite state_eta.
    + unfold transaction. destruct (accountsHead s) as [|a0 l0] eqn:Hacc.
      * by apply elem_of_nil in Hin.
      * by apply transaction_loop_invalid_code.
  - eexists. split; [by apply execute_transaction_absent|].
    split; [done|]. intros _. by destruct (accountsHead s).
Qed.

(** ** Duplicates: claim C5 *)

(** C5: a creation is refused as a duplicate exactly when some live
    account has the same holder name (the same string) and the same type;
    the refusal leaves the whole state as it was: live accounts with all
    their fields, pool and counter. *)
Theorem create_refuses_duplicate_holder_and_type mem (s : State) ts ty name amount :
  parseAccountType ts = Some ty ->
  ((exists s' o, execute mem (CREATE ts name amount) s = Some (s', [o]) /\
                 error_of o = Some DuplicateAccount)
   <-> has_account (accountsHead s) name ty) /\
  (has_account (accountsHead s) name ty ->
   execute mem (CREATE ts name amount) s = Some (s, [MsgDuplicateAccount name ts])) /\
  (checkDuplicateAccount (accountsHead s) name ty = 1
   <-> has_account (accountsHead s) name ty).
Proof.
  intros Hty.
  assert (has_account (accountsHead s) name ty ->
          execute mem (CREATE ts name amount) s
          = Some (s, [MsgDuplicateAccount name ts])) as Hdup.
  { intros Hhas. apply checkDuplicateAccount_found in Hhas.
    simpl. by rewrite Hty, Hhas. }
  split; [|split; [exact Hdup|apply checkDuplicateAccount_found]].
  split.
  - intros (s' & o & Hex & Herr).
    destruct (checkDuplicateAccount_bool (accountsHead s) name ty) as [Hd|Hd];
      [|by apply checkDuplicateAccount_found].
    exfalso. simpl in Hex. rewrite Hty, Hd, createAccount_unfold in Hex.
    simpl in Hex.
    destruct (malloc_ok mem && strdup_ok mem); [|by injection Hex as <- <-].
    destruct (sortDeletedAccountNumList _); [|by injection Hex as <- <-].
    destruct (_ <? _); [|done]. by injection Hex as <- <-.
  - intros Hhas. exists s, (MsgDuplicateAccount name ts). by rewrite (Hdup Hhas).
Qed.

(** ** The claim C9 as the specification words it *)

(** C9 as worded: a code other than 0 and 1 would be rejected before the
    account is looked up, whether or not the number exists.  After one
    creation, a transaction with code 2 on the number 999, which no
    account holds, is answered with the account-not-found message
    instead. *)
Lemma invalid_code_on_unknown_number_reports_not_found :
  let s := mkState [mkAccount 100 "Alice" SAVINGS (f32_of_int 500)] [] 101 in
  main [(alloc_ok, CREATE "savings" "Alice" (f32_of_int 500))]
  = Some (s, [MsgAccountCreated 100 "Alice" SAVINGS (f32_of_int 500)]) /\
  execute alloc_ok (TRANSACTION 999 (f32_of_int 10) 2) s
  = Some (s, [MsgTransactionNotFound 999]) /\
  error_of (MsgTransactionNotFound 999) = Some AccountNotFound /\
  ~ (forall mem s number amount code,
       code <> 0 -> code <> 1 ->
       exists s' o,
         execute mem (TRANSACTION number amount code) s = Some (s', [o]) /\
         error_of o = Some InvalidTransactionCode).
Proof.
  intros s. split; [reflexivity|]. split; [reflexivity|]. split; [reflexivity|].
  intros Hclaim.
  destruct (Hclaim alloc_ok s 999 (f32_of_int 10) 2) as (s' & o & Hex & Herr);
    [lia|lia|].
  vm_compute in Hex. injection Hex as _ <-. discriminate Herr.
Qed.

(** * Concrete runs *)

(** The scenario of the specification: Alice and Bob get 100 and 101;
    Alice is deleted and Carol reuses 100, at the end of the list; DISPLAY
    lists 100 before 101. *)
Example recycling_scenario :
  main [(alloc_ok, CREATE "savings" "Alice" (f32_of_int 500));
        (alloc_ok, CREATE "current" "Bob" (f32_of_int 200));
        (alloc_ok, DELETE "savings" "Alice");
        (alloc_ok, CREATE "current" "Carol" (f32_of_int 300));
        (alloc_ok, DISPLAY)]
  = Some (mkState [mkAccount 100 "Carol" CURRENT (f32_of_int 300);
                   mkAccount 101 "Bob" CURRENT (f32_of_int 200)] [] 102,
          [MsgAccountCreated 100 "Alice" SAVINGS (f32_of_int 500);
           MsgAccountCreated 101 "Bob" CURRENT (f32_of_int 200);
           MsgAccountDeleted 100;
           MsgAccountCreated 100 "Carol" CURRENT (f32_of_int 300);
           MsgAccountTable [(100, CURRENT, "Carol"%string, f32_of_int 300);
                            (101, CURRENT, "Bob"%string, f32_of_int 200)]]).
Proof. reflexivity. Qed.

(** Two deletions, 102 then 100: the next creations reuse 100, then 102,
    and the third one mints 103. *)
Example two_deletions_scenario :
  main [(alloc_ok, CREATE "savings" "Ann" (f32_of_int 1));
        (alloc_ok, CREATE "savings" "Ben" (f32_of_int 2));
        (alloc_ok, CREATE "savings" "Cid" (f32_of_int 3));
        (alloc_ok, DELETE "savings" "Cid");
        (alloc_ok, DELETE "savings" "Ann");
        (alloc_ok, CREATE "current" "Dan" (f32_of_int 4));
        (alloc_ok, CREATE "current" "Eve" (f32_of_int 5));
        (alloc_ok, CREATE "current" "Fay" (f32_of_int 6))]
  = Some (mkState [mkAccount 101 "Ben" SAVINGS (f32_of_int 2);
                   mkAccount 100 "Dan" CURRENT (f32_of_int 4);
                   mkAccount 102 "Eve" CURRENT (f32_of_int 5);
                   mkAccount 103 "Fay" CURRENT (f32_of_int 6)] [] 104,
          [MsgAccountCreated 100 "Ann" SAVINGS (f32_of_int 1);
           MsgAccountCreated 101 "Ben" SAVINGS (f32_of_int 2);
           MsgAccountCreated 102 "Cid" SAVINGS (f32_of_int 3);
           MsgAccountDeleted 102;
           MsgAccountDeleted 100;
           MsgAccountCreated 100 "Dan" CURRENT (f32_of_int 4);
           MsgAccountCreated 102 "Eve" CURRENT (f32_of_int 5);
           MsgAccountCreated 103 "Fay" CURRENT (f32_of_int 6)]).
Proof. reflexivity. Qed.

(** A failed allocation in [addDeletedAccountNum] loses the number of the
    deleted account: the next creation mints a fresh one. *)
Example lost_number_scenario :
  main [(alloc_ok, CREATE "savings" "Ann" (f32_of_int 1));
        (mkAlloc false true, DELETE "savings" "Ann");
        (alloc_ok, CREATE "savings" "Ben" (f32_of_int 2))]
  = Some (mkState [mkAccount 101 "Ben" SAVINGS (f32_of_int 2)] [] 102,
          [MsgAccountCreated 100 "Ann" SAVINGS (f32_of_int 1);
           MsgAccountDeleted 100;
           MsgAllocationFailed;
           MsgAccountCreated 101 "Ben" SAVINGS (f32_of_int 2)]).
Proof. reflexivity. Qed.

(** Balances 50.00, 150.00 and 99.99: LOWBALANCE lists the first and the
    third account. *)
Example low_balance_scenario :
  main [(alloc_ok, CREATE "savings" "Ann" (f32_of_int 50));
        (alloc_ok, CREATE "savings" "Ben" (f32_of_int 150));
        (alloc_ok, CREATE "savings" "Cid" (f32_of_ratio 9999 100));
        (alloc_ok, LOWBALANCE)]
  = Some (mkState [mkAccount 100 "Ann" SAVINGS (f32_of_int 50);
                   mkAccount 101 "Ben" SAVINGS (f32_of_int 150);
                   mkAccount 102 "Cid" SAVINGS (f32_of_ratio 9999 100)] [] 103,
          [MsgAccountCreated 100 "Ann" SAVINGS (f32_of_int 50);
           MsgAccountCreated 101 "Ben" SAVINGS (f32_of_int 150);
           MsgAccountCreated 102 "Cid" SAVINGS (f32_of_ratio 9999 100);
           MsgLowBalanceTable [(100, "Ann"%string, f32_of_int 50);
                               (102, "Cid"%string, f32_of_ratio 9999 100)]]).
Proof. reflexivity. Qed.

(** The subtraction of a withdrawal is rounded to binary32: taking
    0.00000001 from a savings balance of 100 leaves 100 and is accepted. *)
Example withdrawal_rounds_to_binary32 :
  f32_sub (f32_of_int 100) (f32_of_ratio 1 100000000) = f32_of_int 100 /\
  execute alloc_ok (TRANSACTION 100 (f32_of_ratio 1 100000000) 0)
    (mkState [mkAccount 100 "Ann" SAVINGS (f32_of_int 100)] [] 101)
  = Some (mkState [mkAccount 100 "Ann" SAVINGS (f32_of_int 100)] [] 101,
          [MsgWithdrawalSuccessful 100 (f32_of_int 100)]).
Proof. split; reflexivity. Qed.

(** A sort that has to exchange nodes: every account keeps its fields. *)
Example sort_exchanges_whole_nodes :
  sortAccountListByNumber
    [mkAccount 102 "Cid" SAVINGS (f32_of_int 3);
     mkAccount 100 "Ann" CURRENT (f32_of_int 1);
     mkAccount 101 "Ben" SAVINGS (f32_of_int 2)]
  = [mkAccount 100 "Ann" CURRENT (f32_of_int 1);
     mkAccount 101 "Ben" SAVINGS (f32_of_int 2);
     mkAccount 102 "Cid" SAVINGS (f32_of_int 3)].
Proof. reflexivity. Qed.

(** * The theorems at concrete inputs *)

(** Pool {102, 100} and counter 103: Carol gets 100, Dave 102, Erin 103. *)
Lemma create_takes_recycled_numbers_first_witness :
  let s := mkState [mkAccount 101 "Bob" CURRENT (f32_of_int 200)] [102; 100] 103 in
  parseAccountType "current" = Some CURRENT /\
  checkDuplicateAccount (accountsHead s) "Carol" CURRENT = 0 /\
  main_loop [(alloc_ok, CREATE "current" "Carol" (f32_of_int 300));
             (alloc_ok, CREATE "savings" "Dave" (f32_of_int 10));
             (alloc_ok, CREATE "current" "Erin" (f32_of_int 20))] s
  = Some (mkState [mkAccount 101 "Bob" CURRENT (f32_of_int 200);
                   mkAccount 100 "Carol" CURRENT (f32_of_int 300);
                   mkAccount 102 "Dave" SAVINGS (f32_of_int 10);
                   mkAccount 103 "Erin" CURRENT (f32_of_int 20)] [] 104,
          [MsgAccountCreated 100 "Carol" CURRENT (f32_of_int 300);
           MsgAccountCreated 102 "Dave" SAVINGS (f32_of_int 10);
           MsgAccountCreated 103 "Erin" CURRENT (f32_of_int 20)]).
Proof.
  intros s. split; [reflexivity|]. split; [reflexivity|].
  apply (create_takes_recycled_numbers_first s "current" CURRENT "Carol"
           (f32_of_int 300) eq_refl eq_refl).
  - apply perm_swap.
  - reflexivity.
  - reflexivity.
  - reflexivity.
  - reflexivity.
  - reflexivity.
  - reflexivity.
Defined.

Lemma account_numbers_unique_and_counter_monotone_witness :
  let input := [(alloc_ok, CREATE "savings" "Alice" (f32_of_int 500));
                (alloc_ok, CREATE "current" "Bob" (f32_of_int 200));
                (alloc_ok, DELETE "savings" "Alice");
                (alloc_ok, CREATE "current" "Carol" (f32_of_int 300))] in
  let s := mkState [mkAccount 101 "Bob" CURRENT (f32_of_int 200);
                    mkAccount 100 "Carol" CURRENT (f32_of_int 300)] [] 102 in
  let outs := [MsgAccountCreated 100 "Alice" SAVINGS (f32_of_int 500);
               MsgAccountCreated 101 "Bob" CURRENT (f32_of_int 200);
               MsgAccountDeleted 100;
               MsgAccountCreated 100 "Carol" CURRENT (f32_of_int 300)] in
  main input = Some (s, outs) /\
  NoDup (live_numbers s) /\
  Forall (fun n => 100 <= n < globalNextAccountNumber s) (created_numbers outs).
Proof.
  intros input s outs. split; [reflexivity|].
  destruct (account_numbers_unique_and_counter_monotone input s outs eq_refl)
    as (Hnodup & Hcreated & _).
  split; [exact Hnodup|exact Hcreated].
Defined.

(** 500 - 400 = 100: the withdrawal is accepted. *)
Lemma savings_withdrawal_keeps_floor_of_100_witness :
  let acc := mkAccount 100 "Alice" SAVINGS (f32_of_int 500) in
  let s := mkState [acc] [] 101 in
  accountsHead s = [] ++ acc :: [] /\
  (AccountNumber acc ∉ AccountNumber <$> []) /\
  accountType acc = SAVINGS /\
  f32_sub (Amount acc) (f32_of_int 400) = f32_of_int 100 /\
  execute alloc_ok (TRANSACTION 100 (f32_of_int 400) 0) s
  = Some (mkState [mkAccount 100 "Alice" SAVINGS (f32_of_int 100)] [] 101,
          [MsgWithdrawalSuccessful 100 (f32_of_int 100)]).
Proof.
  intros acc s.
  assert (AccountNumber acc ∉ AccountNumber <$> []) as Hfirst
    by apply not_elem_of_nil.
  split; [reflexivity|]. split; [exact Hfirst|]. split; [reflexivity|].
  split; [reflexivity|].
  apply (savings_withdrawal_keeps_floor_of_100 alloc_ok s [] acc []
           (f32_of_int 400) eq_refl Hfirst eq_refl).
  reflexivity.
Defined.

(** 200 - 200 = 0: the withdrawal is accepted. *)
Lemma current_withdrawal_cannot_overdraw_witness :
  let acc := mkAccount 101 "Bob" CURRENT (f32_of_int 200) in
  let s := mkState [acc] [] 102 in
  accountsHead s = [] ++ acc :: [] /\
  (AccountNumber acc ∉ AccountNumber <$> []) /\
  accountType acc = CURRENT /\
  f32_sub (Amount acc) (f32_of_int 200) = f32_of_int 0 /\
  execute alloc_ok (TRANSACTION 101 (f32_of_int 200) 0) s
  = Some (mkState [mkAccount 101 "Bob" CURRENT (f32_of_int 0)] [] 102,
          [MsgWithdrawalSuccessful 101 (f32_of_int 0)]).
Proof.
  intros acc s.
  assert (AccountNumber acc ∉ AccountNumber <$> []) as Hfirst
    by apply not_elem_of_nil.
  split; [reflexivity|]. split; [exact Hfirst|]. split; [reflexivity|].
  split; [reflexivity|].
  apply (current_withdrawal_cannot_overdraw alloc_ok s [] acc []
           (f32_of_int 200) eq_refl Hfirst eq_refl).
  reflexivity.
Defined.

Lemma create_refuses_duplicate_holder_and_type_witness :
  let acc := mkAccount 100 "Alice" SAVINGS (f32_of_int 500) in
  let s := mkState [acc] [] 101 in
  parseAccountType "savings" = Some SAVINGS /\
  has_account (accountsHead s) "Alice" SAVINGS /\
  execute alloc_ok (CREATE "savings" "Alice" (f32_of_int 7)) s
  = Some (s, [MsgDuplicateAccount "Alice" "savings"]).
Proof.
  intros acc s.
  assert (has_account (accountsHead s) "Alice" SAVINGS) as Hhas.
  { exists acc. split; [left|split; reflexivity]. }
  split; [reflexivity|]. split; [exact Hhas|].
  apply (create_refuses_duplicate_holder_and_type alloc_ok s "savings" SAVINGS
           "Alice" (f32_of_int 7) eq_refl).
  exact Hhas.
Defined.

Lemma display_lists_in_ascending_order_witness :
  let input := [(alloc_ok, CREATE "savings" "Alice" (f32_of_int 500));
                (alloc_ok, CREATE "current" "Bob" (f32_of_int 200));
                (alloc_ok, DELETE "savings" "Alice");
                (alloc_ok, CREATE "current" "Carol" (f32_of_int 300))] in
  let bob := mkAccount 101 "Bob" CURRENT (f32_of_int 200) in
  let carol := mkAccount 100 "Carol" CURRENT (f32_of_int 300) in
  let s := mkState [bob; carol] [] 102 in
  let outs := [MsgAccountCreated 100 "Alice" SAVINGS (f32_of_int 500);
               MsgAccountCreated 101 "Bob" CURRENT (f32_of_int 200);
               MsgAccountDeleted 100;
               MsgAccountCreated 100 "Carol" CURRENT (f32_of_int 300)] in
  main input = Some (s, outs) /\
  execute alloc_ok DISPLAY s
  = Some (mkState [carol; bob] [] 102,
          [MsgAccountTable [(100, CURRENT, "Carol"%string, f32_of_int 300);
                            (101, CURRENT, "Bob"%string, f32_of_int 200)]]) /\
  sortAccountListByNumber (accountsHead s) ≡ₚ accountsHead s /\
  StronglySorted Z.lt
    (listed_numbers (display (sortAccountListByNumber (accountsHead s)))).
Proof.
  intros input bob carol s outs. split; [reflexivity|].
  destruct (display_lists_in_ascending_order input s outs alloc_ok eq_refl)
    as (Hdisplay & _ & Hperm & _ & _ & _ & _ & _ & Hsorted & _).
  split; [exact Hdisplay|]. split; [exact Hperm|exact Hsorted].
Defined.

Lemma transaction_on_unknown_number_changes_nothing_witness :
  let s := mkState [mkAccount 100 "Alice" SAVINGS (f32_of_int 500)] [] 101 in
  (999 ∉ live_numbers s) /\
  exists o,
    execute alloc_ok (TRANSACTION 999 (f32_of_int 10) 1) s = Some (s, [o]) /\
    error_of o = Some AccountNotFound /\
    o = MsgTransactionNotFound 999.
Proof.
  intros s.
  assert (999 ∉ live_numbers s) as Habsent
    by (apply (bool_decide_unpack _); vm_compute; exact I).
  split; [exact Habsent|].
  exact (transaction_on_unknown_number_changes_nothing alloc_ok s 999
           (f32_of_int 10) 1 Habsent).
Defined.

Lemma invalid_code_rejected_after_lookup_witness :
  let s := mkState [mkAccount 100 "Alice" SAVINGS (f32_of_int 500)] [] 101 in
  2 <> 0 /\ 2 <> 1 /\
  exists o,
    execute alloc_ok (TRANSACTION 100 (f32_of_int 10) 2) s = Some (s, [o]) /\
    (100 ∈ live_numbers s -> o = MsgInvalidTransactionCode) /\
    (100 ∉ live_numbers s -> error_of o = Some AccountNotFound).
Proof.
  intros s.
  assert (2 <> 0) as H0 by discriminate.
  assert (2 <> 1) as H1 by discriminate.
  split; [exact H0|]. split; [exact H1|].
  exact (invalid_code_rejected_after_lookup alloc_ok s 100 (f32_of_int 10) 2 H0 H1).
Defined.

(** * Further properties of the program *)

(** ** The command loop *)

Lemma main_loop_cons mem c input s :
  is_exit c = false ->
  main_loop ((mem, c) :: input) s =
  match execute mem c s with
  | None => None
  | Some (s1, out) =>
      match main_loop input s1 with
      | None => None
      | Some (s2, outs) => Some (s2, out ++ outs)
      end
  end.
Proof. by destruct c. Qed.

(** X1: EXIT ends the loop.  Whatever follows the first EXIT of the
    input is not executed: the run is the run of the commands before it,
    its output ends with the farewell, and the state is the one those
    commands left. *)
Theorem nothing_runs_after_exit (before after : list (Alloc * Command)) mem
    (s : State) :
  main_loop (before ++ (mem, EXIT) :: after) s
  = main_loop (before ++ [(mem, EXIT)]) s /\
  (Forall (fun p => is_exit p.2 = false) before ->
   main_loop (before ++ (mem, EXIT) :: after) s
   = match main_loop before s with
     | None => None
     | Some (s1, outs) => Some (s1, outs ++ [MsgGoodbye])
     end).
Proof.
  split.
  - revert s. induction before as [|[mem' c] before IH]; intros s; [done|].
    change (((mem', c) :: before) ++ (mem, EXIT) :: after)
      with ((mem', c) :: (before ++ (mem, EXIT) :: after)).
    change (((mem', c) :: before) ++ [(mem, EXIT)])
      with ((mem', c) :: (before ++ [(mem, EXIT)])).
    destruct (is_exit c) eqn:Hc; [by destruct c|].
    rewrite !main_loop_cons by done.
    destruct (execute mem' c s) as [[s1 out]|]; [|done]. by rewrite IH.
  - intros Hno. revert s.
    induction Hno as [|[mem' c] before Hc Hno IH]; intros s; [done|].
    simpl in Hc.
    change (((mem', c) :: before) ++ (mem, EXIT) :: after)
      with ((mem', c) :: (before ++ (mem, EXIT) :: after)).
    rewrite !main_loop_cons by done.
    destruct (execute mem' c s) as [[s1 out]|]; [|done]. rewrite IH.
    destruct (main_loop before s1) as [[s2 outs]|]; [|done].
    by rewrite app_assoc.
Qed.

(** ** The overflow of the counter *)




(** ** Deletion *)

Lemma delete_loop_first (l1 l2 : AccountList) (a : AccountNode) :
  ~ has_account l1 (Name a) (accountType a) ->
  delete_loop (l1 ++ a :: l2) (accountType a) (Name a)
  = Some (l1 ++ l2, AccountNumber a).
Proof.
  induction l1 as [|cur l1 IH]; intros Hno.
  - cbn [app delete_loop].
    by rewrite (proj2 (same_holder_spec a (Name a) (accountType a))).
  - change ((cur :: l1) ++ a :: l2) with (cur :: (l1 ++ a :: l2)).
    cbn [delete_loop].
    destruct ((strcmp (Name cur) (Name a) =? 0)
              && AccountType_eqb (accountType cur) (accountType a)) eqn:E.
    + exfalso. apply Hno. apply same_holder_spec in E.
      exists cur. split; [left|done].
    + rewrite IH; [done|].
      intros (b & Hb & Hb'). apply Hno. exists b. split; [by right|done].
Qed.

Lemma deleteAccount_first (l1 l2 : AccountList) (a : AccountNode) :
  ~ has_account l1 (Name a) (accountType a) ->
  deleteAccount (l1 ++ a :: l2) (accountType a) (Name a)
  = (l1 ++ l2, AccountNumber a, MsgAccountDeleted (AccountNumber a)).
Proof.
  intros Hno. unfold deleteAccount.
  destruct (l1 ++ a :: l2) as [|a0 l0] eqn:E; [by destruct l1|].
  rewrite <- E. by rewrite delete_loop_first.
Qed.

Lemma deleteAccount_absent (l : AccountList) ty name :
  ~ has_account l name ty ->
  deleteAccount l ty name
  = (l, -1, match l with
            | [] => MsgNoAccountsToDelete
            | _ => MsgDeleteNotFound name ty
            end).
Proof.
  intros Hno. unfold deleteAccount. destruct l as [|a0 l0]; [done|].
  by rewrite (proj2 (delete_loop_None (a0 :: l0) ty name) Hno).
Qed.

(** Any call removes at most one node and keeps the others in order. *)
Lemma deleteAccount_sublist (l : AccountList) ty name l' n msg :
  deleteAccount l ty name = (l', n, msg) ->
  l' `sublist_of` l /\ (length l' = length l \/ S (length l') = length l).
Proof.
  unfold deleteAccount. destruct l as [|a0 l0] eqn:El.
  - intros [= <- <- <-]. split; [done|by left].
  - rewrite <- El. destruct (delete_loop l ty name) as [[l'' n']|] eqn:Hdel.
    + intros [= <- <- <-].
      apply delete_loop_Some in Hdel as (k1 & b & k2 & -> & -> & _).
      split.
      * apply sublist_app; [done|]. by apply sublist_cons.
      * right. rewrite !length_app. simpl. lia.
    + intros [= <- <- <-]. split; [done|by left].
Qed.

(** X4: [deleteAccount] removes the first node whose holder and type
    match, and only that one: the nodes before and after it stay in
    order, later nodes with the same holder and type included; it hands
    back the number of the removed node.  Whatever the arguments, a call
    removes at most one node and never reorders the others. *)
Theorem deleteAccount_removes_first_match (l1 l2 : AccountList) (a : AccountNode) :
  ~ has_account l1 (Name a) (accountType a) ->
  deleteAccount (l1 ++ a :: l2) (accountType a) (Name a)
  = (l1 ++ l2, AccountNumber a, MsgAccountDeleted (AccountNumber a)) /\
  (forall ty name l' n msg,
     deleteAccount (l1 ++ a :: l2) ty name = (l', n, msg) ->
     l' `sublist_of` l1 ++ a :: l2 /\
     (length l' = length (l1 ++ a :: l2) \/
      S (length l') = length (l1 ++ a :: l2))).
Proof.
  intros Hno. split; [by apply deleteAccount_first|].
  intros ty name l' n msg. apply deleteAccount_sublist.
Qed.

(** X5: a DELETE for a holder and type that no live account has changes
    nothing, state or pool.  [deleteAccount] leaves -1 as the number and
    the message is the one for a missing account, or, with no account at
    all, the one for an empty list. *)
Theorem delete_of_missing_account_changes_nothing mem (s : State) ts ty name :
  parseAccountType ts = Some ty ->
  ~ has_account (accountsHead s) name ty ->
  let msg := match accountsHead s with
             | [] => MsgNoAccountsToDelete
             | _ => MsgDeleteNotFound name ty
             end in
  deleteAccount (accountsHead s) ty name = (accountsHead s, -1, msg) /\
  execute mem (DELETE ts name) s = Some (s, [msg]) /\
  error_of msg = Some AccountNotFound.
Proof.
  intros Hty Hno msg.
  pose proof (deleteAccount_absent _ _ _ Hno) as Hdel. fold msg in Hdel.
  split; [exact Hdel|]. split.
  - cbn [execute]. rewrite Hty, Hdel. cbn. by rewrite state_eta.
  - unfold msg. by destruct (accountsHead s).
Qed.

(** X6: a DELETE of a live account removes it and appends its number to
    the pool; accounts and counter are otherwise untouched.  Two cases
    lose the number instead: a failed allocation in
    [addDeletedAccountNum], and an account whose number is -1, the value
    [main] reads as nothing deleted. *)
Theorem delete_command_pools_the_number mem (s : State) ts l1 a l2 :
  parseAccountType ts = Some (accountType a) ->
  accountsHead s = l1 ++ a :: l2 ->
  ~ has_account l1 (Name a) (accountType a) ->
  execute mem (DELETE ts (Name a)) s
  = Some (mkState (l1 ++ l2)
            (if AccountNumber a =? -1 then deletedAccountNumbersHead s
             else if malloc_ok mem
                  then deletedAccountNumbersHead s ++ [AccountNumber a]
                  else deletedAccountNumbersHead s)
            (globalNextAccountNumber s),
          MsgAccountDeleted (AccountNumber a)
          :: (if AccountNumber a =? -1 then []
              else if malloc_ok mem then [] else [MsgAllocationFailed])).
Proof.
  intros Hty Hacc Hno. cbn [execute].
  rewrite Hty, Hacc, (deleteAccount_first l1 l2 a Hno).
  destruct (AccountNumber a =? -1); cbn [negb]; [done|].
  rewrite addDeletedAccountNum_unfold. by destruct (malloc_ok mem).
Qed.

(** ** Invariants of the holders and of the numbers *)

(** An invariant of the commands that satisfy [Q] is an invariant of the
    loop over such commands. *)
Lemma main_loop_preserves (P : State -> Prop) (Q : Alloc * Command -> Prop) :
  (forall mem c s s' out,
     Q (mem, c) -> P s -> execute mem c s = Some (s', out) -> P s') ->
  forall input s s' outs,
    Forall Q input -> P s -> main_loop input s = Some (s', outs) -> P s'.
Proof.
  intros Hstep input. induction input as [|[mem c] input IH];
    intros s s' outs HQ HP.
  - by intros [= <- <-].
  - apply Forall_cons in HQ as [Hq HQ].
    destruct (is_exit c) eqn:Hc.
    + destruct c; try done. by intros [= <- <-].
    + rewrite main_loop_cons by done.
      destruct (execute mem c s) as [[s1 out]|] eqn:Hex; [|done].
      destruct (main_loop input s1) as [[s2 outs']|] eqn:Hrun; [|done].
      intros [= <- <-]. eapply IH; [exact HQ| |exact Hrun].
      by eapply Hstep.
Qed.

Lemma has_account_keys (l : AccountList) name ty :
  has_account l name ty <-> (name, ty) ∈ holder_key <$> l.
Proof.
  unfold has_account. rewrite list_elem_of_fmap. unfold holder_key. split.
  - intros (a & Ha & <- & <-). by exists a.
  - intros (a & [= -> ->] & Ha). by exists a.
Qed.

Lemma transaction_loop_touches (l : AccountList) number amount code :
  Forall2 (transaction_touches number) l
    (transaction_loop l number amount code).1.
Proof.
  assert (forall k : AccountList, Forall2 (transaction_touches number) k k) as Hrefl.
  { intros k. induction k; constructor; [by split|done]. }
  induction l as [|cur rest IH]; [constructor|]. cbn [transaction_loop].
  destruct (Z.eqb_spec (AccountNumber cur) number) as [Heq|Hne].
  - assert (forall v, transaction_touches number cur (set_Amount v cur)) as Hset.
    { intros v. split; [done|]. by intros Hne. }
    destruct (code =? 1); [by constructor|].
    destruct (code =? 0); [|by apply Hrefl].
    destruct (_ && _); [by apply Hrefl|].
    destruct (_ && _); [by apply Hrefl|by constructor].
  - destruct (transaction_loop rest number amount code) as [rest' out].
    constructor; [by split|done].
Qed.

Lemma transaction_touches_list (l : AccountList) number amount code :
  Forall2 (transaction_touches number) l (transaction l number amount code).1.
Proof.
  destruct l as [|a0 l0]; [constructor|]. apply transaction_loop_touches.
Qed.

Lemma touches_holder_keys number (l l' : AccountList) :
  Forall2 (transaction_touches number) l l' ->
  holder_key <$> l' = holder_key <$> l.
Proof.
  induction 1 as [|a a' l l' [Hid _] _ IH]; [done|].
  rewrite !fmap_cons, IH. f_equal. unfold identity_of in Hid.
  unfold holder_key. by injection Hid as _ -> ->.
Qed.

(** Every command keeps the pairs of holder and type distinct. *)
Lemma execute_holder_keys mem c s s' out :
  NoDup (holder_key <$> accountsHead s) ->
  execute mem c s = Some (s', out) ->
  NoDup (holder_key <$> accountsHead s').
Proof.
  intros Hnd. destruct c; cbn [execute].
  - destruct (parseAccountType accountTypeInputStr) as [ty|];
      [|by intros [= <- <-]].
    destruct (checkDuplicateAccount_bool (accountsHead s) nameInput ty) as [Hd|Hd];
      rewrite Hd; cbn [Z.eqb negb]; [|by intros [= <- <-]].
    apply checkDuplicateAccount_none in Hd. rewrite has_account_keys in Hd.
    rewrite createAccount_unfold.
    destruct (malloc_ok mem && strdup_ok mem); [|by intros [= <- <-]].
    assert (forall n,
              NoDup (holder_key <$> accountsHead s
                                     ++ [mkAccount n nameInput ty amountInput]))
      as Happ.
    { intros n. rewrite fmap_app. apply NoDup_app. split; [done|].
      split; [|apply NoDup_singleton].
      intros k Hk Hk'. apply list_elem_of_singleton in Hk'. by subst k. }
    destruct (sortDeletedAccountNumList _).
    + destruct (_ <? _); [|done]. intros [= <- <-]. apply Happ.
    + intros [= <- <-]. apply Happ.
  - destruct (parseAccountType accountTypeInputStr) as [ty|];
      [|by intros [= <- <-]].
    destruct (deleteAccount (accountsHead s) ty nameInput) as [[l' n] msg] eqn:Hdel.
    apply deleteAccount_sublist in Hdel as [Hsub _].
    assert (NoDup (holder_key <$> l')) as Hnd'.
    { eapply sublist_NoDup; [exact Hnd|]. by apply fmap_sublist. }
    destruct (negb (n =? -1)); [|by intros [= <- <-]].
    destruct (addDeletedAccountNum _ _ _). by intros [= <- <-].
  - intros [= <- <-]. cbn. by rewrite sortAccountListByNumber_Permutation.
  - intros [= <- <-]. cbn. by rewrite sortAccountListByNumber_Permutation.
  - pose proof (transaction_touches_list (accountsHead s) targetAccountNumberInput
                  amountInput transactionCodeInput) as Ht.
    destruct (transaction _ _ _ _) as [l' msg]. intros [= <- <-]. cbn in *.
    by rewrite (touches_holder_keys _ _ _ Ht).
  - by intros [= <- <-].
  - by intros [= <- <-].
Qed.

(** X7: in every state reached by the command loop no two live accounts
    have the same holder name and the same type: [main] asks
    [checkDuplicateAccount] before every creation, and no other command
    changes a name or a type. *)
Theorem holder_and_type_stay_unique input (s : State) outs :
  main input = Some (s, outs) ->
  NoDup (holder_key <$> accountsHead s) /\
  (forall a b,
     a ∈ accountsHead s -> b ∈ accountsHead s ->
     Name a = Name b -> accountType a = accountType b -> a = b).
Proof.
  intros Hmain.
  assert (NoDup (holder_key <$> accountsHead s)) as Hnd.
  { apply (main_loop_preserves (fun s => NoDup (holder_key <$> accountsHead s))
             (fun _ => True)) with input initial_state outs; try done.
    - intros mem c s0 s1 out _. apply execute_holder_keys.
    - by apply Forall_forall.
    - constructor. }
  split; [exact Hnd|]. intros a b Ha Hb Hn Ht.
  apply list_elem_of_lookup in Ha as [i Hi]. apply list_elem_of_lookup in Hb as [j Hj].
  assert (i = j) as ->; [|congruence].
  apply (NoDup_lookup _ i j (holder_key a) Hnd).
  - by rewrite list_lookup_fmap, Hi.
  - rewrite list_lookup_fmap, Hj. unfold holder_key. simpl. by rewrite Hn, Ht.
Qed.

(** How many numbers are live or pooled after a command whose pooling,
    if any, succeeds. *)
Lemma execute_issued_length mem c s s' out :
  state_ok s -> pooling_succeeds (mem, c) ->
  execute mem c s = Some (s', out) ->
  length (issued_numbers s')
  = (length (issued_numbers s) + (if mints_fresh mem c s then 1 else 0))%nat.
Proof.
  intros Hok Hpool. unfold issued_numbers, live_numbers.
  destruct c; cbn [execute mints_fresh].
  - destruct (parseAccountType accountTypeInputStr) as [ty|];
      [|intros [= <- <-]; lia].
    destruct (checkDuplicateAccount_bool (accountsHead s) nameInput ty) as [Hd|Hd];
      rewrite Hd; cbn [Z.eqb negb andb]; [|intros [= <- <-]; lia].
    rewrite createAccount_unfold.
    pose proof (sortDeletedAccountNumList_Permutation
                  (deletedAccountNumbersHead s)) as Hp.
    destruct (malloc_ok mem), (strdup_ok mem); cbn [andb];
      try (intros [= <- <-]; cbn; rewrite !length_app, Hp; lia).
    destruct (sortDeletedAccountNumList _) as [|x pool'] eqn:Hsort.
    + apply Permutation_nil_l in Hp. rewrite <- Hp.
      rewrite bool_decide_eq_true_2 by done.
      destruct (_ <? _); [|done]. intros [= <- <-]. cbn.
      rewrite !length_app, length_fmap, length_app, length_fmap. simpl. lia.
    + rewrite bool_decide_eq_false_2
        by (intros Hnil; rewrite Hnil in Hp; by apply Permutation_nil_r in Hp).
      intros [= <- <-]. cbn.
      rewrite !length_app, length_fmap, length_app, length_fmap, <- Hp.
      simpl. lia.
  - destruct (parseAccountType accountTypeInputStr) as [ty|];
      [|intros [= <- <-]; lia].
    unfold deleteAccount.
    destruct (accountsHead s) as [|a0 l0] eqn:Hacc; [intros [= <- <-]; cbn; lia|].
    rewrite <- Hacc.
    destruct (delete_loop (accountsHead s) ty nameInput) as [[l' n]|] eqn:Hdel;
      [|intros [= <- <-]; cbn; rewrite Hacc; lia].
    apply delete_loop_Some in Hdel as (l1 & a & l2 & Hl & -> & Hn & _).
    assert (n <> -1) as Hne.
    { destruct Hok as [_ Hr _]. rewrite Forall_forall in Hr.
      assert (100 <= n < globalNextAccountNumber s); [|lia].
      apply Hr. unfold issued_numbers, live_numbers.
      rewrite Hl, fmap_app, fmap_cons, Hn. apply elem_of_app. left.
      apply elem_of_app. right. by left. }
    destruct (Z.eqb_spec n (-1)) as [|_]; [done|]. cbn [negb].
    rewrite addDeletedAccountNum_unfold. unfold pooling_succeeds in Hpool.
    cbn in Hpool. rewrite Hpool. intros [= <- <-]. cbn.
    rewrite Hl, !length_app, !length_fmap, !length_app. simpl. lia.
  - intros [= <- <-]. cbn.
    rewrite !length_app, !length_fmap, sortAccountListByNumber_Permutation. lia.
  - intros [= <- <-]. cbn.
    rewrite !length_app, !length_fmap, sortAccountListByNumber_Permutation. lia.
  - pose proof (transaction_numbers (accountsHead s) targetAccountNumberInput
                  amountInput transactionCodeInput) as Hnum.
    destruct (transaction _ _ _ _) as [l' msg]. intros [= <- <-]. cbn in *.
    rewrite Hnum. lia.
  - intros [= <- <-]. lia.
  - intros [= <- <-]. lia.
Qed.

(** X8: no account number leaks.  As long as no allocation of
    [addDeletedAccountNum] fails, in every state reached by the command
    loop the numbers that are live or pooled are exactly the numbers from
    100 up to the counter, each once: every number ever minted is either
    held by an account or waiting in the pool. *)
Theorem every_minted_number_is_live_or_pooled input (s : State) outs :
  Forall pooling_succeeds input ->
  main input = Some (s, outs) ->
  issued_numbers s ≡ₚ seqZ 100 (globalNextAccountNumber s - 100) /\
  (forall n, 100 <= n < globalNextAccountNumber s ->
             n ∈ live_numbers s \/ n ∈ deletedAccountNumbersHead s).
Proof.
  intros Hpool Hmain.
  assert (state_ok s /\
          Z.of_nat (length (issued_numbers s)) = globalNextAccountNumber s - 100)
    as [[Hnd Hr Hc] Hlen].
  { apply (main_loop_preserves
             (fun s => state_ok s /\
                       Z.of_nat (length (issued_numbers s))
                       = globalNextAccountNumber s - 100)
             pooling_succeeds) with input initial_state outs;
      [|exact Hpool|split; [apply state_ok_initial|done]|exact Hmain].
    intros mem c s0 s1 out Hq [Hok Hl] Hex.
    destruct (execute_invariant _ _ _ _ _ Hok Hex) as (Hok1 & Hnext & _).
    split; [done|].
    rewrite (execute_issued_length _ _ _ _ _ Hok Hq Hex), Hnext.
    destruct (mints_fresh mem c s0); lia. }
  assert (issued_numbers s ≡ₚ seqZ 100 (globalNextAccountNumber s - 100)) as Hp.
  { apply submseteq_length_Permutation.
    - apply NoDup_submseteq; [done|]. intros n Hn.
      rewrite Forall_forall in Hr. apply Hr in Hn. apply elem_of_seqZ. lia.
    - rewrite length_seqZ. lia. }
  split; [exact Hp|]. intros n Hn.
  assert (n ∈ issued_numbers s) as Hin
    by (rewrite Hp; apply elem_of_seqZ; lia).
  by apply elem_of_app in Hin.
Qed.

(** ** Deleting, then creating *)

Lemma parseAccountType_accountTypeStr (ty : AccountType) :
  parseAccountType (accountTypeStr ty) = Some ty.
Proof. by destruct ty. Qed.

(** The pool takes a number below all the others and hands it back
    first. *)
Lemma sortDeletedAccountNumList_smallest_last (pool : list Z) (n : Z) :
  Forall (Z.le n) pool ->
  exists pool', sortDeletedAccountNumList (pool ++ [n]) = n :: pool' /\
                pool' ≡ₚ pool.
Proof.
  intros Hmin.
  destruct (sortDeletedAccountNumList (pool ++ [n])) as [|x pool'] eqn:Hsort.
  - apply (proj1 (sortDeletedAccountNumList_nil _)) in Hsort. by destruct pool.
  - apply sortDeletedAccountNumList_head in Hsort as [Hp Hx].
    assert (x = n) as ->.
    { assert (x <= n) as Hxn.
      { rewrite Forall_forall in Hx. apply Hx, elem_of_app. right. by left. }
      assert (x ∈ pool ++ [n]) as Hin by (rewrite Hp; by left).
      apply elem_of_app in Hin as [Hin|Hin].
      - rewrite Forall_forall in Hmin. apply Hmin in Hin. lia.
      - by apply list_elem_of_singleton in Hin. }
    exists pool'. split; [done|].
    rewrite <- (Permutation_cons_append pool n) in Hp.
    symmetry. eapply Permutation_cons_inv. exact Hp.
Qed.

Lemma main_loop_two mem1 c1 mem2 c2 (s s1 s2 : State) out1 out2 :
  is_exit c1 = false -> is_exit c2 = false ->
  execute mem1 c1 s = Some (s1, out1) ->
  execute mem2 c2 s1 = Some (s2, out2) ->
  main_loop [(mem1, c1); (mem2, c2)] s = Some (s2, out1 ++ out2).
Proof.
  intros Hc1 Hc2 Hex1 Hex2.
  rewrite main_loop_cons, Hex1 by done. cbn beta iota.
  rewrite main_loop_cons, Hex2 by done. cbn. by rewrite app_nil_r.
Qed.

Lemma execute_delete_pools (s : State) ts l1 a l2 :
  parseAccountType ts = Some (accountType a) ->
  accountsHead s = l1 ++ a :: l2 ->
  ~ has_account l1 (Name a) (accountType a) ->
  AccountNumber a <> -1 ->
  execute alloc_ok (DELETE ts (Name a)) s
  = Some (mkState (l1 ++ l2) (deletedAccountNumbersHead s ++ [AccountNumber a])
            (globalNextAccountNumber s),
          [MsgAccountDeleted (AccountNumber a)]).
Proof.
  intros Hty Hacc Hfirst Hne. cbn [execute].
  rewrite Hty, Hacc, (deleteAccount_first l1 l2 a Hfirst).
  destruct (Z.eqb_spec (AccountNumber a) (-1)) as [|_]; [done|]. cbn [negb].
  by rewrite addDeletedAccountNum_unfold.
Qed.

(** X9: the number of a deleted account is the next one handed out.
    When the deleted account has a number (other than -1) that is not
    above any pooled number, a DELETE followed by a CREATE gives the new
    account exactly that number, puts it at the end of the list and
    leaves the counter and the contents of the pool as they were. *)
Theorem deleted_number_is_reused_by_next_create (s : State) ts l1 a l2 ts' ty'
    name' amount :
  parseAccountType ts = Some (accountType a) ->
  accountsHead s = l1 ++ a :: l2 ->
  ~ has_account l1 (Name a) (accountType a) ->
  AccountNumber a <> -1 ->
  Forall (Z.le (AccountNumber a)) (deletedAccountNumbersHead s) ->
  parseAccountType ts' = Some ty' ->
  ~ has_account (l1 ++ l2) name' ty' ->
  exists pool',
    main_loop [(alloc_ok, DELETE ts (Name a)); (alloc_ok, CREATE ts' name' amount)] s
    = Some (mkState ((l1 ++ l2) ++ [mkAccount (AccountNumber a) name' ty' amount])
              pool' (globalNextAccountNumber s),
            [MsgAccountDeleted (AccountNumber a);
             MsgAccountCreated (AccountNumber a) name' ty' amount]) /\
    pool' ≡ₚ deletedAccountNumbersHead s.
Proof.
  intros Hty Hacc Hfirst Hne Hmin Hty' Hfree.
  destruct (sortDeletedAccountNumList_smallest_last _ _ Hmin)
    as (pool' & Hsort & Hp).
  exists pool'. split; [|exact Hp].
  apply (main_loop_two alloc_ok (DELETE ts (Name a)) alloc_ok
           (CREATE ts' name' amount) s _ _ [_] [_] eq_refl eq_refl
           (execute_delete_pools s ts l1 a l2 Hty Hacc Hfirst Hne)).
  rewrite (execute_create_unfold
             (mkState (l1 ++ l2)
                (deletedAccountNumbersHead s ++ [AccountNumber a])
                (globalNextAccountNumber s))
             ts' ty' name' amount Hty'
             (proj2 (checkDuplicateAccount_none _ _ _) Hfree)).
  cbn [accountsHead deletedAccountNumbersHead globalNextAccountNumber].
  by rewrite Hsort.
Qed.

(** X10: closing and reopening.  In a state reached by the command loop
    with an empty pool, deleting a live account and creating one for the
    same holder and type again, the allocations of both commands
    succeeding, is never refused: the new account has the old number and
    the new balance and stands at the end of the list, the other
    accounts, the pool and the counter being as before. *)
Theorem reopened_account_keeps_its_number input (s : State) outs a amount :
  main input = Some (s, outs) ->
  a ∈ accountsHead s ->
  deletedAccountNumbersHead s = [] ->
  exists l1 l2,
    accountsHead s = l1 ++ a :: l2 /\
    main_loop [(alloc_ok, DELETE (accountTypeStr (accountType a)) (Name a));
               (alloc_ok, CREATE (accountTypeStr (accountType a)) (Name a) amount)] s
    = Some (mkState ((l1 ++ l2) ++ [set_Amount amount a]) []
              (globalNextAccountNumber s),
            [MsgAccountDeleted (AccountNumber a);
             MsgAccountCreated (AccountNumber a) (Name a) (accountType a) amount]).
Proof.
  intros Hmain Ha Hpool.
  assert (NoDup (holder_key <$> accountsHead s)) as Hkeys.
  { apply (main_loop_preserves (fun s => NoDup (holder_key <$> accountsHead s))
             (fun _ => True)) with input initial_state outs; try done.
    - intros mem c s0 s1 out _. apply execute_holder_keys.
    - by apply Forall_forall.
    - constructor. }
  pose proof (main_state_ok _ _ _ Hmain) as [_ Hr _].
  apply list_elem_of_split in Ha as (l1 & l2 & Hacc).
  rewrite Hacc, fmap_app, fmap_cons in Hkeys.
  apply NoDup_app in Hkeys as (_ & Hdisj & Hnd2). apply NoDup_cons in Hnd2 as [Hnot2 _].
  assert (~ has_account l1 (Name a) (accountType a)) as Hfirst.
  { rewrite has_account_keys. intros Hin. apply (Hdisj _ Hin). by left. }
  assert (~ has_account (l1 ++ l2) (Name a) (accountType a)) as Hfree.
  { rewrite has_account_keys, fmap_app, elem_of_app. intros [Hin|Hin].
    - apply (Hdisj _ Hin). by left.
    - by apply Hnot2. }
  assert (AccountNumber a <> -1) as Hne.
  { rewrite Forall_forall in Hr.
    assert (100 <= AccountNumber a < globalNextAccountNumber s); [|lia].
    apply Hr. unfold issued_numbers, live_numbers.
    rewrite Hacc, fmap_app, fmap_cons. apply elem_of_app. left.
    apply elem_of_app. right. by left. }
  exists l1, l2. split; [exact Hacc|].
  apply (main_loop_two alloc_ok
           (DELETE (accountTypeStr (accountType a)) (Name a)) alloc_ok
           (CREATE (accountTypeStr (accountType a)) (Name a) amount)
           s _ _ [_] [_] eq_refl eq_refl
           (execute_delete_pools s _ l1 a l2 (parseAccountType_accountTypeStr _)
              Hacc Hfirst Hne)).
  rewrite (execute_create_unfold
             (mkState (l1 ++ l2)
                (deletedAccountNumbersHead s ++ [AccountNumber a])
                (globalNextAccountNumber s))
             _ (accountType a) (Name a) amount (parseAccountType_accountTypeStr _)
             (proj2 (checkDuplicateAccount_none _ _ _) Hfree)).
  cbn [accountsHead deletedAccountNumbersHead globalNextAccountNumber].
  rewrite Hpool. cbn. by destruct a.
Qed.

(** ** Deposits and the footprint of a transaction *)

(** X11: a deposit on a live account always succeeds, whatever the type of
    the account and the amount (negative, or more than the balance can
    hold): the balance becomes the binary32 sum, no floor is checked, and
    nothing else changes. *)
Theorem deposit_is_unconditional mem (s : State) l1 acc l2 amount :
  accountsHead s = l1 ++ acc :: l2 ->
  AccountNumber acc ∉ AccountNumber <$> l1 ->
  execute mem (TRANSACTION (AccountNumber acc) amount 1) s
  = Some (mkState (l1 ++ set_Amount (f32_add (Amount acc) amount) acc :: l2)
            (deletedAccountNumbersHead s) (globalNextAccountNumber s),
          [MsgDepositSuccessful (AccountNumber acc)
             (f32_add (Amount acc) amount)]).
Proof.
  intros Hacc Hfirst. apply execute_transaction. rewrite Hacc.
  apply transaction_first; [exact Hfirst|].
  cbn [transaction_loop]. by rewrite Z.eqb_refl.
Qed.

(** The list a transaction returns: the same list, or the same list with
    a new balance in the first node that holds the number. *)
Lemma transaction_loop_shape (l : AccountList) number amount code :
  (transaction_loop l number amount code).1 = l \/
  exists l1 a l2 v,
    l = l1 ++ a :: l2 /\
    (transaction_loop l number amount code).1 = l1 ++ set_Amount v a :: l2 /\
    AccountNumber a = number /\ number ∉ AccountNumber <$> l1.
Proof.
  induction l as [|cur rest IH]; [by left|]. cbn [transaction_loop].
  destruct (Z.eqb_spec (AccountNumber cur) number) as [Heq|Hne].
  - assert (forall v (out : Output),
              (set_Amount v cur :: rest, out).1 = cur :: rest \/
              exists l1 a l2 v',
                cur :: rest = l1 ++ a :: l2 /\
                (set_Amount v cur :: rest, out).1 = l1 ++ set_Amount v' a :: l2 /\
                AccountNumber a = number /\ number ∉ AccountNumber <$> l1)
      as Hset.
    { intros v out. right. exists [], cur, rest, v.
      repeat split; try done. apply not_elem_of_nil. }
    destruct (code =? 1); [apply Hset|].
    destruct (code =? 0); [|by left].
    destruct (_ && _); [by left|]. destruct (_ && _); [by left|apply Hset].
  - destruct (transaction_loop rest number amount code) as [rest' out].
    cbn [fst] in *. destruct IH as [->|(l1 & a & l2 & v & -> & -> & Hn & Hl1)].
    + by left.
    + right. exists (cur :: l1), a, l2, v. repeat split; try done.
      rewrite fmap_cons. apply not_elem_of_cons. by split.
Qed.

(** X12: the footprint of a transaction.  Whatever its arguments, a
    TRANSACTION leaves the pool and the counter alone and returns the
    account list either as it was or with a new balance in one node, the
    first that holds the number; so every node keeps its number, holder
    and type, and every node with another number is left as a whole. *)
Theorem transaction_changes_one_balance_at_most mem (s : State) number amount
    code :
  exists l' msg,
    execute mem (TRANSACTION number amount code) s
    = Some (mkState l' (deletedAccountNumbersHead s) (globalNextAccountNumber s),
            [msg]) /\
    (l' = accountsHead s \/
     exists l1 a l2 v,
       accountsHead s = l1 ++ a :: l2 /\ l' = l1 ++ set_Amount v a :: l2 /\
       AccountNumber a = number /\ number ∉ AccountNumber <$> l1) /\
    Forall2 (transaction_touches number) (accountsHead s) l' /\
    length l' = length (accountsHead s).
Proof.
  pose proof (transaction_touches_list (accountsHead s) number amount code) as Ht.
  assert ((transaction (accountsHead s) number amount code).1 = accountsHead s \/
          exists l1 a l2 v,
            accountsHead s = l1 ++ a :: l2 /\
            (transaction (accountsHead s) number amount code).1
            = l1 ++ set_Amount v a :: l2 /\
            AccountNumber a = number /\ number ∉ AccountNumber <$> l1) as Hshape.
  { unfold transaction. destruct (accountsHead s) as [|a0 l0]; [by left|].
    apply transaction_loop_shape. }
  destruct (transaction (accountsHead s) number amount code) as [l' msg] eqn:Htr.
  exists l', msg. split; [by apply execute_transaction|].
  split; [exact Hshape|]. split; [exact Ht|].
  symmetry. by eapply Forall2_length.
Qed.

(** ** Sorting again, and sorting any list *)

Lemma min_scan_keeps_minimum {A : Type} (key : A -> Z) (runner : list A)
    (pos minPos : nat) (minNode : A) :
  Forall (key_le key minNode) runner ->
  min_scan key runner pos minPos minNode = (minPos, minNode).
Proof.
  intros Hall. revert pos. induction Hall as [|r runner Hr _ IH]; intros pos;
    [done|]. cbn [min_scan]. unfold key_le in Hr.
  destruct (Z.ltb_spec (key r) (key minNode)); [lia|apply IH].
Qed.

Lemma selection_loop_fixes_sorted {A : Type} (key : A -> Z) (n : nat) (l : list A) :
  StronglySorted (key_le key) l -> selection_loop key n l = l.
Proof.
  intros Hs. revert n. induction Hs as [|a l Hs IH Hall]; intros [|n]; try done.
  cbn [selection_loop]. rewrite (min_scan_keeps_minimum key l 1 0 a Hall).
  by rewrite IH.
Qed.

Lemma sortAccountListByNumber_fixes_sorted (l : AccountList) :
  StronglySorted by_number l -> sortAccountListByNumber l = l.
Proof.
  intros Hs. destruct l as [|a [|b l]]; try done.
  unfold sortAccountListByNumber. rewrite account_sort_loop_generic.
  by apply selection_loop_fixes_sorted.
Qed.

Lemma sortDeletedAccountNumList_fixes_sorted (l : list Z) :
  StronglySorted Z.le l -> sortDeletedAccountNumList l = l.
Proof.
  intros Hs. destruct l as [|a [|b l]]; try done.
  unfold sortDeletedAccountNumList. rewrite deleted_sort_loop_generic.
  by apply (selection_loop_fixes_sorted id).
Qed.

(** X13: a list already in ascending order of account number comes back
    from [sortAccountListByNumber] node for node as it was, equal numbers
    included: the scan replaces its minimum only by a strictly smaller
    number, so nothing is exchanged. *)
Theorem sorted_accounts_are_left_in_place (l : AccountList) :
  StronglySorted by_number l ->
  sortAccountListByNumber l = l /\
  display (sortAccountListByNumber l) = display l /\
  lowBalanceAccounts (sortAccountListByNumber l) = lowBalanceAccounts l.
Proof.
  intros Hs. by rewrite (sortAccountListByNumber_fixes_sorted l Hs).
Qed.

(** X14: asking again changes nothing.  After a DISPLAY or a LOWBALANCE
    the list is sorted, so a further DISPLAY or LOWBALANCE leaves the
    state as it is; both sorting functions return their own results
    unchanged. *)
Theorem listing_again_changes_nothing mem mem' (s : State) :
  let s1 := mkState (sortAccountListByNumber (accountsHead s))
              (deletedAccountNumbersHead s) (globalNextAccountNumber s) in
  execute mem DISPLAY s = Some (s1, [display (accountsHead s1)]) /\
  execute mem LOWBALANCE s = Some (s1, [lowBalanceAccounts (accountsHead s1)]) /\
  execute mem' DISPLAY s1 = Some (s1, [display (accountsHead s1)]) /\
  execute mem' LOWBALANCE s1 = Some (s1, [lowBalanceAccounts (accountsHead s1)]) /\
  (forall l : AccountList,
     sortAccountListByNumber (sortAccountListByNumber l)
     = sortAccountListByNumber l) /\
  (forall pool : list Z,
     sortDeletedAccountNumList (sortDeletedAccountNumList pool)
     = sortDeletedAccountNumList pool).
Proof.
  intros s1.
  assert (forall l : AccountList,
            sortAccountListByNumber (sortAccountListByNumber l)
            = sortAccountListByNumber l) as Hidem.
  { intros l. apply sortAccountListByNumber_fixes_sorted,
      sortAccountListByNumber_sorted. }
  do 2 (split; [done|]). cbn [execute accountsHead s1].
  rewrite Hidem. do 2 (split; [done|]). split; [exact Hidem|].
  intros pool. apply sortDeletedAccountNumList_fixes_sorted,
    sortDeletedAccountNumList_sorted.
Qed.

(** X15: both sorting functions put every list in ascending order,
    repeated numbers included.  The sorted pool holds the numbers of the
    pool, each as often as the pool does, so its head is a smallest
    pooled number. *)
Theorem sorting_gives_ascending_permutation (pool : list Z) (l : AccountList) :
  StronglySorted Z.le (sortDeletedAccountNumList pool) /\
  sortDeletedAccountNumList pool ≡ₚ pool /\
  length (sortDeletedAccountNumList pool) = length pool /\
  (forall x rest, sortDeletedAccountNumList pool = x :: rest ->
                  x ∈ pool /\ Forall (Z.le x) pool) /\
  StronglySorted by_number (sortAccountListByNumber l).
Proof.
  pose proof (sortDeletedAccountNumList_Permutation pool) as Hp.
  split; [apply sortDeletedAccountNumList_sorted|]. split; [exact Hp|].
  split; [by rewrite Hp|]. split.
  - intros x rest Hsort.
    destruct (sortDeletedAccountNumList_head pool x rest Hsort) as [Hperm Hmin].
    split; [rewrite Hperm; by left|exact Hmin].
  - apply sortAccountListByNumber_sorted.
Qed.

(** ** Rejected and failed creations, empty tables *)

Lemma parseAccountType_Some (ts : string) (ty : AccountType) :
  parseAccountType ts = Some ty <-> ts = accountTypeStr ty.
Proof.
  unfold parseAccountType.
  destruct (Z.eqb_spec (strcmp ts "savings") 0) as [Hs|Hs];
    [|destruct (Z.eqb_spec (strcmp ts "current") 0) as [Hc|Hc]];
    rewrite strcmp_zero in *; subst; destruct ty; split; done.
Qed.

(** X16: the account type is read exactly: only the strings "savings"
    and "current", in lower case, are accepted.  With any other string a
    CREATE or a DELETE is rejected before the accounts are looked at and
    the state is left as it is. *)
Theorem account_type_is_matched_exactly mem (s : State) ts name amount :
  (forall ty, parseAccountType ts = Some ty <-> ts = accountTypeStr ty) /\
  (parseAccountType ts = None <-> ts <> "savings"%string /\ ts <> "current"%string) /\
  (parseAccountType ts = None ->
   execute mem (CREATE ts name amount) s = Some (s, [MsgInvalidAccountType ts]) /\
   execute mem (DELETE ts name) s = Some (s, [MsgInvalidAccountType ts])).
Proof.
  split; [intros ty; apply parseAccountType_Some|]. split.
  - split.
    + intros Hnone. split; intros ->; done.
    + intros [Hs Hc]. destruct (parseAccountType ts) as [ty|] eqn:E; [|done].
      apply parseAccountType_Some in E. by destruct ty.
  - intros Hnone. cbn [execute]. by rewrite Hnone.
Qed.

(** X17: a creation whose allocation fails creates nothing and uses up
    no number: the accounts and the counter are as before and the pool
    holds the same numbers, though [main] has already sorted it. *)
Theorem failed_allocation_consumes_no_number mem (s : State) ts ty name amount :
  parseAccountType ts = Some ty ->
  ~ has_account (accountsHead s) name ty ->
  malloc_ok mem = false \/ strdup_ok mem = false ->
  execute mem (CREATE ts name amount) s
  = Some (mkState (accountsHead s)
            (sortDeletedAccountNumList (deletedAccountNumbersHead s))
            (globalNextAccountNumber s),
          [MsgAllocationFailed]) /\
  sortDeletedAccountNumList (deletedAccountNumbersHead s)
  ≡ₚ deletedAccountNumbersHead s.
Proof.
  intros Hty Hno Hfail. split; [|apply sortDeletedAccountNumList_Permutation].
  apply checkDuplicateAccount_none in Hno.
  cbn [execute]. rewrite Hty, Hno, createAccount_unfold. cbn [Z.eqb negb].
  assert (malloc_ok mem && strdup_ok mem = false) as ->; [|done].
  destruct Hfail as [-> | ->]; [done|apply andb_false_r].
Qed.


(** * The further properties at concrete inputs *)


(** Two accounts of Ann, savings: the first one goes, the second stays. *)
Lemma deleteAccount_removes_first_match_witness :
  let bob := mkAccount 100 "Bob" CURRENT (f32_of_int 1) in
  let ann := mkAccount 101 "Ann" SAVINGS (f32_of_int 2) in
  let ann' := mkAccount 102 "Ann" SAVINGS (f32_of_int 3) in
  ~ has_account [bob] (Name ann) (accountType ann) /\
  deleteAccount ([bob] ++ ann :: [ann']) SAVINGS "Ann"
  = ([bob; ann'], 101, MsgAccountDeleted 101).
Proof.
  intros bob ann ann'.
  assert (~ has_account [bob] (Name ann) (accountType ann)) as Hno
    by (apply checkDuplicateAccount_none; reflexivity).
  split; [exact Hno|].
  exact (proj1 (deleteAccount_removes_first_match [bob] [ann'] ann Hno)).
Defined.

Lemma delete_of_missing_account_changes_nothing_witness :
  let s := mkState [mkAccount 100 "Bob" CURRENT (f32_of_int 1)] [] 101 in
  parseAccountType "savings" = Some SAVINGS /\
  ~ has_account (accountsHead s) "Bob" SAVINGS /\
  execute alloc_ok (DELETE "savings" "Bob") s
  = Some (s, [MsgDeleteNotFound "Bob" SAVINGS]).
Proof.
  intros s.
  assert (~ has_account (accountsHead s) "Bob" SAVINGS) as Hno
    by (apply checkDuplicateAccount_none; reflexivity).
  split; [reflexivity|]. split; [exact Hno|].
  destruct (delete_of_missing_account_changes_nothing alloc_ok s "savings"
              SAVINGS "Bob" eq_refl Hno) as (_ & Hex & _).
  exact Hex.
Defined.

(** The allocation fails: Ann's account goes and its number is lost. *)
Lemma delete_command_pools_the_number_witness :
  let ann := mkAccount 100 "Ann" SAVINGS (f32_of_int 1) in
  let s := mkState [ann] [] 101 in
  parseAccountType "savings" = Some (accountType ann) /\
  accountsHead s = [] ++ ann :: [] /\
  ~ has_account [] (Name ann) (accountType ann) /\
  execute alloc_ok (DELETE "savings" "Ann") s
  = Some (mkState [] [100] 101, [MsgAccountDeleted 100]) /\
  execute (mkAlloc false true) (DELETE "savings" "Ann") s
  = Some (mkState [] [] 101, [MsgAccountDeleted 100; MsgAllocationFailed]).
Proof.
  intros ann s.
  assert (~ has_account [] (Name ann) (accountType ann)) as Hno
    by (apply checkDuplicateAccount_none; reflexivity).
  split; [reflexivity|]. split; [reflexivity|]. split; [exact Hno|]. split.
  - exact (delete_command_pools_the_number alloc_ok s "savings" [] ann []
             eq_refl eq_refl Hno).
  - exact (delete_command_pools_the_number (mkAlloc false true) s "savings" []
             ann [] eq_refl eq_refl Hno).
Defined.

Lemma holder_and_type_stay_unique_witness :
  let input := [(alloc_ok, CREATE "savings" "Ann" (f32_of_int 1));
                (alloc_ok, CREATE "current" "Ann" (f32_of_int 2));
                (alloc_ok, CREATE "savings" "Ann" (f32_of_int 3))] in
  let s := mkState [mkAccount 100 "Ann" SAVINGS (f32_of_int 1);
                    mkAccount 101 "Ann" CURRENT (f32_of_int 2)] [] 102 in
  let outs := [MsgAccountCreated 100 "Ann" SAVINGS (f32_of_int 1);
               MsgAccountCreated 101 "Ann" CURRENT (f32_of_int 2);
               MsgDuplicateAccount "Ann" "savings"] in
  main input = Some (s, outs) /\
  NoDup (holder_key <$> accountsHead s).
Proof.
  intros input s outs. split; [reflexivity|].
  exact (proj1 (holder_and_type_stay_unique input s outs eq_refl)).
Defined.

Lemma every_minted_number_is_live_or_pooled_witness :
  let input := [(alloc_ok, CREATE "savings" "Ann" (f32_of_int 1));
                (alloc_ok, CREATE "savings" "Ben" (f32_of_int 2));
                (alloc_ok, DELETE "savings" "Ann")] in
  let s := mkState [mkAccount 101 "Ben" SAVINGS (f32_of_int 2)] [100] 102 in
  let outs := [MsgAccountCreated 100 "Ann" SAVINGS (f32_of_int 1);
               MsgAccountCreated 101 "Ben" SAVINGS (f32_of_int 2);
               MsgAccountDeleted 100] in
  Forall pooling_succeeds input /\
  main input = Some (s, outs) /\
  issued_numbers s ≡ₚ seqZ 100 (globalNextAccountNumber s - 100).
Proof.
  intros input s outs.
  assert (Forall pooling_succeeds input) as Hpool
    by (repeat constructor).
  split; [exact Hpool|]. split; [reflexivity|].
  exact (proj1 (every_minted_number_is_live_or_pooled input s outs Hpool eq_refl)).
Defined.

(** Ann's account 100 is deleted while 101 waits in the pool: Cid gets
    100. *)
Lemma deleted_number_is_reused_by_next_create_witness :
  let ann := mkAccount 100 "Ann" SAVINGS (f32_of_int 1) in
  let s := mkState [ann] [101] 102 in
  parseAccountType "savings" = Some (accountType ann) /\
  accountsHead s = [] ++ ann :: [] /\
  ~ has_account [] (Name ann) (accountType ann) /\
  AccountNumber ann <> -1 /\
  Forall (Z.le (AccountNumber ann)) (deletedAccountNumbersHead s) /\
  parseAccountType "current" = Some CURRENT /\
  ~ has_account ([] ++ []) "Cid" CURRENT /\
  exists pool',
    main_loop [(alloc_ok, DELETE "savings" "Ann");
               (alloc_ok, CREATE "current" "Cid" (f32_of_int 5))] s
    = Some (mkState [mkAccount 100 "Cid" CURRENT (f32_of_int 5)] pool' 102,
            [MsgAccountDeleted 100;
             MsgAccountCreated 100 "Cid" CURRENT (f32_of_int 5)]) /\
    pool' ≡ₚ [101].
Proof.
  intros ann s.
  assert (~ has_account [] (Name ann) (accountType ann)) as Hfirst
    by (apply checkDuplicateAccount_none; reflexivity).
  assert (AccountNumber ann <> -1) as Hne by discriminate.
  assert (Forall (Z.le (AccountNumber ann)) (deletedAccountNumbersHead s)) as Hmin
    by (repeat constructor; simpl; lia).
  assert (~ has_account ([] ++ []) "Cid" CURRENT) as Hfree
    by (apply checkDuplicateAccount_none; reflexivity).
  do 2 (split; [reflexivity|]). split; [exact Hfirst|]. split; [exact Hne|].
  split; [exact Hmin|]. split; [reflexivity|]. split; [exact Hfree|].
  exact (deleted_number_is_reused_by_next_create s "savings" [] ann [] "current"
           CURRENT "Cid" (f32_of_int 5) eq_refl eq_refl Hfirst Hne Hmin eq_refl
           Hfree).
Defined.

Lemma reopened_account_keeps_its_number_witness :
  let input := [(alloc_ok, CREATE "savings" "Ann" (f32_of_int 1));
                (alloc_ok, CREATE "current" "Ben" (f32_of_int 2))] in
  let ann := mkAccount 100 "Ann" SAVINGS (f32_of_int 1) in
  let ben := mkAccount 101 "Ben" CURRENT (f32_of_int 2) in
  let s := mkState [ann; ben] [] 102 in
  let outs := [MsgAccountCreated 100 "Ann" SAVINGS (f32_of_int 1);
               MsgAccountCreated 101 "Ben" CURRENT (f32_of_int 2)] in
  main input = Some (s, outs) /\
  ann ∈ accountsHead s /\
  deletedAccountNumbersHead s = [] /\
  exists l1 l2,
    accountsHead s = l1 ++ ann :: l2 /\
    main_loop [(alloc_ok, DELETE "savings" "Ann");
               (alloc_ok, CREATE "savings" "Ann" (f32_of_int 9))] s
    = Some (mkState ((l1 ++ l2) ++ [mkAccount 100 "Ann" SAVINGS (f32_of_int 9)])
              [] 102,
            [MsgAccountDeleted 100;
             MsgAccountCreated 100 "Ann" SAVINGS (f32_of_int 9)]).
Proof.
  intros input ann ben s outs.
  assert (ann ∈ accountsHead s) as Hin by left.
  split; [reflexivity|]. split; [exact Hin|]. split; [reflexivity|].
  exact (reopened_account_keeps_its_number input s outs ann (f32_of_int 9)
           eq_refl Hin eq_refl).
Defined.

(** A deposit of -450 takes a savings balance of 500 down to 50, below
    the floor of 100 that a withdrawal has to respect. *)
Lemma deposit_is_unconditional_witness :
  let ann := mkAccount 100 "Ann" SAVINGS (f32_of_int 500) in
  let s := mkState [ann] [] 101 in
  accountsHead s = [] ++ ann :: [] /\
  (AccountNumber ann ∉ AccountNumber <$> []) /\
  execute alloc_ok (TRANSACTION 100 (f32_of_int (-450)) 1) s
  = Some (mkState [mkAccount 100 "Ann" SAVINGS (f32_of_int 50)] [] 101,
          [MsgDepositSuccessful 100 (f32_of_int 50)]).
Proof.
  intros ann s.
  assert (AccountNumber ann ∉ AccountNumber <$> []) as Hfirst
    by apply not_elem_of_nil.
  split; [reflexivity|]. split; [exact Hfirst|].
  exact (deposit_is_unconditional alloc_ok s [] ann [] (f32_of_int (-450))
           eq_refl Hfirst).
Defined.

(** Two nodes with the number 100: they keep their places. *)
Lemma sorted_accounts_are_left_in_place_witness :
  let l := [mkAccount 100 "Ann" SAVINGS (f32_of_int 1);
            mkAccount 100 "Ben" CURRENT (f32_of_int 2);
            mkAccount 101 "Cid" SAVINGS (f32_of_int 3)] in
  StronglySorted by_number l /\ sortAccountListByNumber l = l.
Proof.
  intros l.
  assert (StronglySorted by_number l) as Hs
    by (repeat constructor; unfold by_number; simpl; lia).
  split; [exact Hs|].
  exact (proj1 (sorted_accounts_are_left_in_place l Hs)).
Defined.

Lemma failed_allocation_consumes_no_number_witness :
  let s := mkState [mkAccount 101 "Ben" CURRENT (f32_of_int 2)] [102; 100] 103 in
  let mem := mkAlloc true false in
  parseAccountType "savings" = Some SAVINGS /\
  ~ has_account (accountsHead s) "Ann" SAVINGS /\
  (malloc_ok mem = false \/ strdup_ok mem = false) /\
  execute mem (CREATE "savings" "Ann" (f32_of_int 1)) s
  = Some (mkState [mkAccount 101 "Ben" CURRENT (f32_of_int 2)] [100; 102] 103,
          [MsgAllocationFailed]).
Proof.
  intros s mem.
  assert (~ has_account (accountsHead s) "Ann" SAVINGS) as Hno
    by (apply checkDuplicateAccount_none; reflexivity).
  assert (malloc_ok mem = false \/ strdup_ok mem = false) as Hfail
    by (right; reflexivity).
  split; [reflexivity|]. split; [exact Hno|]. split; [exact Hfail|].
  exact (proj1 (failed_allocation_consumes_no_number mem s "savings" SAVINGS
                  "Ann" (f32_of_int 1) eq_refl Hno Hfail)).
Defined.
